(** * medea-test: the task-lifecycle core of the Mesos integration test

    A shallow embedding of [integration-test/medea-test.py]: the protobuf
    messages the script builds, the task factories, the [Scheduler] base class
    with its three strategies, the callbacks the driver invokes, and the exit
    code computed by [cli].

    Conventions.
    - A protobuf message is a record; an optional field is an [option]
      ([None] = the field is not set, what [HasField] reports as false).
    - A Python [dict] keyed by task id is a [gmap string _]; the class-level
      [set]s of task states are [gset TaskState].
    - Python integers are [Z]; [len] is a [nat]; a Python [float] is an
      IEEE-754 binary64 number, the Standard Library's [spec_float].
    - A callback is a computation in the monad [M]: it threads the mutable
      [Scheduler] object and the trace of external effects (driver calls, log
      records, sleeps), and may raise.  Mutations made before a [raise] stay,
      as in Python. *)

From Stdlib Require Import ZArith QArith DecimalString DecimalNat DecimalZ.
From Stdlib Require SpecFloat.
From stdpp Require Import gmap strings list fin_maps.

Local Open Scope string_scope.
Local Open Scope Z_scope.

(** ** Enumerations of [mesos_pb2] *)

(** [mesos_pb2.TaskState], in the order of the wire numbers 0..6 the Mesos
    releases of the script's time give them. *)
Inductive TaskState :=
  | TASK_STARTING | TASK_RUNNING | TASK_FINISHED | TASK_FAILED
  | TASK_KILLED | TASK_LOST | TASK_STAGING.

(** [mesos_pb2.Status], the value [driver.run()] returns. *)
Inductive Status :=
  | DRIVER_NOT_STARTED | DRIVER_RUNNING | DRIVER_ABORTED | DRIVER_STOPPED.

(** [mesos_pb2.Value.Type]; the script only uses [SCALAR]. *)
Inductive ValueType := SCALAR | RANGES | SET | TEXT.

Definition TaskState_number (c : TaskState) : nat :=
  match c with
  | TASK_STARTING => 0 | TASK_RUNNING => 1 | TASK_FINISHED => 2
  | TASK_FAILED => 3 | TASK_KILLED => 4 | TASK_LOST => 5 | TASK_STAGING => 6
  end%nat.

Definition TaskState_of_number (n : nat) : option TaskState :=
  match n with
  | 0 => Some TASK_STARTING | 1 => Some TASK_RUNNING | 2 => Some TASK_FINISHED
  | 3 => Some TASK_FAILED | 4 => Some TASK_KILLED | 5 => Some TASK_LOST
  | 6 => Some TASK_STAGING | _ => None
  end%nat.

(** [mesos_pb2.TaskState.Name(code)] *)
Definition TaskState_Name (c : TaskState) : string :=
  match c with
  | TASK_STARTING => "TASK_STARTING" | TASK_RUNNING => "TASK_RUNNING"
  | TASK_FINISHED => "TASK_FINISHED" | TASK_FAILED => "TASK_FAILED"
  | TASK_KILLED => "TASK_KILLED" | TASK_LOST => "TASK_LOST"
  | TASK_STAGING => "TASK_STAGING"
  end.

Global Instance TaskState_eq_dec : EqDecision TaskState.
Proof. solve_decision. Defined.

Global Instance TaskState_countable : Countable TaskState.
Proof.
  apply (inj_countable TaskState_number TaskState_of_number).
  by intros [].
Defined.

Global Instance Status_eq_dec : EqDecision Status.
Proof. solve_decision. Defined.

(** ** Protobuf messages *)

Module TaskID.
Record t := mk { value : string }.
End TaskID.

Module SlaveID.
Record t := mk { value : string }.
End SlaveID.

Module OfferID.
Record t := mk { value : string }.
End OfferID.


Module ContainerInfo.
Record t := mk { image : option string }.
Definition empty : t := {| image := None |}.
(** A set singular field of the source overwrites the destination's. *)
Definition MergeFrom (dst src : t) : t :=
  {| image := match image src with Some i => Some i | None => image dst end |}.
End ContainerInfo.

Module CommandInfo.
Record t := mk {
  value     : option string;
  uris      : list string;            (* the [value] of each [URI] *)
  container : option ContainerInfo.t
}.
Definition empty : t := {| value := None; uris := []; container := None |}.
(** Singular fields set in [src] overwrite, repeated fields are appended,
    sub-messages set in [src] are merged recursively. *)
Definition MergeFrom (dst src : t) : t :=
  {| value := match value src with Some v => Some v | None => value dst end;
     uris := uris dst ++ uris src;
     container :=
       match container src with
       | Some c =>
           Some (ContainerInfo.MergeFrom
                   (default ContainerInfo.empty (container dst)) c)
       | None => container dst
       end |}.
End CommandInfo.

Module ExecutorInfo.
Record t := mk {
  executor_id : option string;
  name        : option string;
  source      : option string;
  command     : option CommandInfo.t
}.
Definition empty : t :=
  {| executor_id := None; name := None; source := None; command := None |}.
Definition MergeFrom (dst src : t) : t :=
  {| executor_id :=
       match executor_id src with Some v => Some v | None => executor_id dst end;
     name := match name src with Some v => Some v | None => name dst end;
     source := match source src with Some v => Some v | None => source dst end;
     command :=
       match command src with
       | Some c =>
           Some (CommandInfo.MergeFrom
                   (default CommandInfo.empty (command dst)) c)
       | None => command dst
       end |}.
End ExecutorInfo.

Module Resource.
Record t := mk { name : string; type : ValueType; scalar : Q }.
End Resource.

Module TaskInfo.
Record t := mk {
  name      : string;
  task_id   : TaskID.t;
  slave_id  : SlaveID.t;
  resources : list Resource.t;
  executor  : option ExecutorInfo.t;
  command   : option CommandInfo.t
}.
End TaskInfo.

Module Offer.
Record t := mk { id : OfferID.t; slave_id : SlaveID.t }.
End Offer.

Module TaskStatus.
Record t := mk {
  task_id : TaskID.t;
  state   : TaskState;
  message : option string
}.
End TaskStatus.

(** ** Task factories *)

(** [command(shell="", uris=[], image=None)].  [if image:] is Python
    truthiness: [None] and the empty string are both false. *)
Definition truthy (image : option string) : bool :=
  match image with
  | None => false
  | Some s => negb (String.eqb s "")
  end.

Definition command (shell : string) (uris : list string) (image : option string)
  : CommandInfo.t :=
  let command := CommandInfo.empty in
  let command :=
    {| CommandInfo.value := Some shell;
       CommandInfo.uris := CommandInfo.uris command;
       CommandInfo.container := CommandInfo.container command |} in
  let command :=
    fold_left
      (fun c uri =>
         {| CommandInfo.value := CommandInfo.value c;
            CommandInfo.uris := CommandInfo.uris c ++ [uri];
            CommandInfo.container := CommandInfo.container c |})
      uris command in
  if truthy image then
    let container := {| ContainerInfo.image := image |} in
    {| CommandInfo.value := CommandInfo.value command;
       CommandInfo.uris := CommandInfo.uris command;
       CommandInfo.container :=
         Some (ContainerInfo.MergeFrom
                 (default ContainerInfo.empty (CommandInfo.container command))
                 container) |}
  else command.

(** The positional [*args] the factories forward to [command]; a missing
    argument takes [command]'s default. *)
Inductive args :=
  | Args0
  | Args1 (shell : string)
  | Args2 (shell : string) (uris : list string)
  | Args3 (shell : string) (uris : list string) (image : option string).

Definition command_star (a : args) : CommandInfo.t :=
  match a with
  | Args0 => command "" [] None
  | Args1 shell => command shell [] None
  | Args2 shell uris => command shell uris None
  | Args3 shell uris image => command shell uris image
  end.

(** [task_base(tid, sid, cpu=0.5, ram=256)] *)
Definition task_base (tid : string) (sid : SlaveID.t) (cpu ram : Q) : TaskInfo.t :=
  let cpus := {| Resource.name := "cpus"; Resource.type := SCALAR;
                 Resource.scalar := cpu |} in
  let mem := {| Resource.name := "mem"; Resource.type := SCALAR;
                Resource.scalar := ram |} in
  {| TaskInfo.name := tid;
     TaskInfo.task_id := {| TaskID.value := tid |};
     TaskInfo.slave_id := {| SlaveID.value := SlaveID.value sid |};
     TaskInfo.resources := [cpus; mem];
     TaskInfo.executor := None;
     TaskInfo.command := None |}.

Definition default_cpu : Q := 1 # 2.
Definition default_ram : Q := 256 # 1.

(** [task.command.MergeFrom(c)] *)
Definition set_command (task : TaskInfo.t) (c : CommandInfo.t) : TaskInfo.t :=
  {| TaskInfo.name := TaskInfo.name task;
     TaskInfo.task_id := TaskInfo.task_id task;
     TaskInfo.slave_id := TaskInfo.slave_id task;
     TaskInfo.resources := TaskInfo.resources task;
     TaskInfo.executor := TaskInfo.executor task;
     TaskInfo.command :=
       Some (CommandInfo.MergeFrom
               (default CommandInfo.empty (TaskInfo.command task)) c) |}.

(** [task.executor.MergeFrom(e)] *)
Definition set_executor (task : TaskInfo.t) (e : ExecutorInfo.t) : TaskInfo.t :=
  {| TaskInfo.name := TaskInfo.name task;
     TaskInfo.task_id := TaskInfo.task_id task;
     TaskInfo.slave_id := TaskInfo.slave_id task;
     TaskInfo.resources := TaskInfo.resources task;
     TaskInfo.executor :=
       Some (ExecutorInfo.MergeFrom
               (default ExecutorInfo.empty (TaskInfo.executor task)) e);
     TaskInfo.command := TaskInfo.command task |}.

Definition task_with_executor (tid : string) (sid : SlaveID.t) (a : args)
  : TaskInfo.t :=
  let executor :=
    {| ExecutorInfo.executor_id := Some tid;
       ExecutorInfo.name := Some tid;
       ExecutorInfo.source := Some "medea-test";
       ExecutorInfo.command :=
         Some (CommandInfo.MergeFrom CommandInfo.empty (command_star a)) |} in
  let task := task_base tid sid default_cpu default_ram in
  set_executor task executor.

Definition task_with_command (tid : string) (sid : SlaveID.t) (a : args)
  : TaskInfo.t :=
  let task := task_base tid sid default_cpu default_ram in
  set_command task (command_star a).

Definition task_with_daemon (tid : string) (sid : SlaveID.t)
    (image : option string) : TaskInfo.t :=
  let task := task_base tid sid default_cpu default_ram in
  set_command task (command "" [] image).

(** ** Text helpers *)

(** ["%d" % n] for an integer, [str(n)]. *)
Definition str (n : Z) : string := NilEmpty.string_of_int (Z.to_int n).

(** ["%02d" % n]: decimal digits, padded with a zero on the left to two
    characters; three digits and more are printed as they are. *)
Definition fmt02d (n : nat) : string :=
  let d := Nat.to_uint n in
  if (Decimal.nb_digits d <? 2)%nat
  then NilEmpty.string_of_uint (Decimal.D0 d)
  else NilEmpty.string_of_uint d.

(** Reading a decimal numeral back, [int(s)] on a string of digits. *)
Definition parse_nat (s : string) : option nat :=
  Nat.of_uint <$> NilEmpty.uint_of_string s.

Definition newline : string := String (Ascii.ascii_of_nat 10) "".
Definition dquote : string := String (Ascii.ascii_of_nat 34) "".

(** [" ".join(l)] *)
Fixpoint join (sep : string) (l : list string) : string :=
  match l with
  | [] => ""
  | [x] => x
  | x :: rest => x ++ sep ++ join sep rest
  end.

(** ** Effects, exceptions and the callback monad *)

Inductive Level := INFO | ERROR.

(** What a log record carries.  The protobuf text rendering of a message
    ([pb.text_format.MessageToString]) belongs to the library: [TaskText]
    keeps the token and the message that [present_task] renders. *)
Inductive LogText :=
  | Text (s : string)
  | TaskText (token : string) (body : ExecutorInfo.t + CommandInfo.t).

(** Everything a callback does to the outside: records handed to a logger
    (named by its dotted path), [time.sleep], and the three driver calls. *)
Inductive Effect :=
  | Log (logger : string) (level : Level) (msg : LogText)
  | Sleep (secs : Z)
  | launchTasks (offer_id : OfferID.t) (tasks : list TaskInfo.t)
  | killTask (tid : TaskID.t)
  | stop.

Inductive Exn :=
  | KeyError (key : string)
  | ZeroDivisionError
  | OverflowError       (* an integer too large for a float or a timestamp *)
  | ValueError          (* [int] of a NaN *)
  | SleepLengthError    (* [time.sleep] of a negative length *)
  | OSError.            (* the operating system refuses the sleep *)

Global Instance Effect_eq_dec_stop (e : Effect) : Decision (e = stop).
Proof. destruct e; (by left) || (by right). Defined.

(** The fields [Scheduler.__init__] creates, plus [framework_id], which
    [registered] adds. *)
Record Scheduler := mkScheduler {
  token        : string;
  trials       : Z;
  tasks        : list TaskInfo.t;
  statuses     : gmap string TaskState;
  loggers      : gmap string string;
  framework_id : option string
}.

Definition set_tasks (f : list TaskInfo.t -> list TaskInfo.t) (s : Scheduler) :=
  {| token := token s; trials := trials s; tasks := f (tasks s);
     statuses := statuses s; loggers := loggers s;
     framework_id := framework_id s |}.

Definition set_statuses
    (f : gmap string TaskState -> gmap string TaskState) (s : Scheduler) :=
  {| token := token s; trials := trials s; tasks := tasks s;
     statuses := f (statuses s); loggers := loggers s;
     framework_id := framework_id s |}.

Definition set_loggers
    (f : gmap string string -> gmap string string) (s : Scheduler) :=
  {| token := token s; trials := trials s; tasks := tasks s;
     statuses := statuses s; loggers := f (loggers s);
     framework_id := framework_id s |}.

Definition set_framework_id (fid : string) (s : Scheduler) :=
  {| token := token s; trials := trials s; tasks := tasks s;
     statuses := statuses s; loggers := loggers s;
     framework_id := Some fid |}.

(** The scheduler object together with the trace of effects so far, oldest
    first. *)
Record World := mkWorld { self : Scheduler; out : list Effect }.

Definition M (A : Type) : Type := World -> World * (Exn + A).

Definition ret {A} (a : A) : M A := fun w => (w, inr a).

Definition bind {A B} (m : M A) (k : A -> M B) : M B :=
  fun w =>
    match m w with
    | (w', inl e) => (w', inl e)
    | (w', inr a) => k a w'
    end.

Definition raise {A} (e : Exn) : M A := fun w => (w, inl e).

Definition get_self : M Scheduler := fun w => (w, inr (self w)).

Definition modify_self (f : Scheduler -> Scheduler) : M unit :=
  fun w => ({| self := f (self w); out := out w |}, inr tt).

Definition emit (e : Effect) : M unit :=
  fun w => ({| self := self w; out := out w ++ [e] |}, inr tt).

Notation "'let*' x ':=' m 'in' k" := (bind m (fun x => k))
  (at level 10, x name, m at level 100, k at level 200).
Notation "m ';;' k" := (bind m (fun _ => k))
  (at level 100, k at level 200, right associativity).

(** ** The [Scheduler] base class *)

(** [log = logging.getLogger("medea-test")] and [logger.getChild(suffix)] *)
Definition log : string := "medea-test".
Definition getChild (logger suffix : string) : string :=
  logger ++ "." ++ suffix.

(** [Scheduler.__init__(self, trials)]; the 32 random bits, printed as
    ["%08x"], are the argument [tok]. *)
Definition Scheduler_init (tok : string) (trials : Z) : Scheduler :=
  {| token := tok; trials := trials; tasks := []; statuses := ∅;
     loggers := ∅; framework_id := None |}.

Definition terminal : gset TaskState :=
  {[ TASK_FINISHED; TASK_FAILED; TASK_KILLED; TASK_LOST ]}.

Definition failed : gset TaskState :=
  {[ TASK_FAILED; TASK_KILLED; TASK_LOST ]}.

(** [dict.values()] and [dict.items()] *)
Definition values {V} (d : gmap string V) : list V := (map_to_list d).*2.
Definition items {V} (d : gmap string V) : list (string * V) := map_to_list d.

Definition present_status (update : TaskStatus.t) : string :=
  let info := TaskState_Name (TaskStatus.state update) in
  match TaskStatus.message update with
  | Some message =>
      if decide (TaskStatus.state update ∈ failed)
      then info ++ newline ++ "  message: " ++ dquote ++ message ++ dquote
      else info
  | None => info
  end.

Definition present_task (task : TaskInfo.t) : LogText :=
  match TaskInfo.executor task with
  | Some e => TaskText "executor" (inl e)
  | None =>
      TaskText "command"
        (inr (default CommandInfo.empty (TaskInfo.command task)))
  end.

(** [self.loggers[task].info(text)]: the subscript raises [KeyError] when no
    logger was registered under [task]. *)
Definition loggers_info (task : string) (text : LogText) : M unit :=
  let* s := get_self in
  match loggers s !! task with
  | Some logger => emit (Log logger INFO text)
  | None => raise (KeyError task)
  end.

Definition registered (fid : string) : M unit :=
  modify_self (set_framework_id fid);;
  emit (Log (getChild log "scheduler") INFO
          (Text ("Registered with ID:" ++ newline ++ "  " ++ fid))).

Definition Scheduler_statusUpdate (update : TaskStatus.t) : M unit :=
  let task := TaskID.value (TaskStatus.task_id update) in
  let code := TaskStatus.state update in
  modify_self (set_statuses (insert task code));;
  loggers_info task (Text (present_status update)).

Definition all_tasks_done (s : Scheduler) : bool :=
  let agg := filter (fun c => c ∈ terminal) (values (statuses s)) in
  Z.of_nat (length agg) >=? trials s.

(** [counts[code] += 1] on a [defaultdict(int)].  (The order in which a
    Python [dict] lists its items is unspecified; the summary below comes in
    the order [gmap] lists them.) *)
Definition incr (counts : gmap TaskState nat) (code : TaskState)
  : gmap TaskState nat :=
  <[code := S (default 0%nat (counts !! code))]> counts.

Definition task_status_summary (s : Scheduler) : list (string * nat) :=
  let counts :=
    fold_left (fun counts '(task, code) => incr counts code)
      (items (statuses s)) ∅ in
  (fun '(code, count) => (TaskState_Name code, count)) <$> map_to_list counts.

Definition sum_up : M unit :=
  let* s := get_self in
  let sums :=
    (fun '(k, v) => k ++ "=" ++ str (Z.of_nat v)) <$> task_status_summary s in
  emit (Log log INFO (Text (join " " sums))).

Definition next_task_id : M string :=
  let* s := get_self in
  let short_id := token s ++ "-task" ++ fmt02d (length (tasks s)) in
  let long_id := "medea-test." ++ short_id in
  modify_self (set_loggers (insert long_id (getChild log short_id)));;
  ret long_id.

(** ** Python's [float] and [time.sleep] *)

Definition float : Type := SpecFloat.spec_float.
Definition prec : Z := 53.
Definition emax : Z := 1024.

(** [float(n)] of an integer [n], also the conversion [x / n] makes of an
    integer divisor: the nearest float, ties to even; [OverflowError] when
    that is beyond the largest float. *)
Definition float_of_int (n : Z) : Exn + float :=
  match SpecFloat.binary_normalize prec emax n 0 false with
  | SpecFloat.S754_infinity _ => inl OverflowError
  | x => inr x
  end.

(** [int(x)] of a float: its integer part, towards zero. *)
Definition int_of_float (x : float) : Exn + Z :=
  match x with
  | SpecFloat.S754_zero _ => inr 0
  | SpecFloat.S754_finite s m e =>
      inr (SpecFloat.cond_Zopp s
             (match e with
              | Zneg p => Z.pos m / 2 ^ Z.pos p
              | _ => Z.pos m * 2 ^ e
              end))
  | SpecFloat.S754_infinity _ => inl OverflowError
  | SpecFloat.S754_nan => inl ValueError
  end.

(** [int(float(sleep) / trials)] for integers [sleep] and [trials]: both are
    converted, [sleep] first; a zero divisor raises; the quotient is the
    correctly rounded binary64 one. *)
Definition float_delay (sleep trials : Z) : Exn + Z :=
  match float_of_int sleep with
  | inl e => inl e
  | inr x =>
      match float_of_int trials with
      | inl e => inl e
      | inr y =>
          if trials =? 0 then inl ZeroDivisionError
          else int_of_float (SpecFloat.SFdiv prec emax x y)
      end
  end.

(** What [time.sleep] accepts.  CPython 3 first converts the length to a
    64-bit count of nanoseconds, which overflows beyond [timestamp_max]
    seconds either side of zero, then refuses a negative length, and leaves
    the sleep to the operating system, which refuses a deadline its clock
    cannot hold: how long a sleep may be depends on the platform and on the
    clock's reading.  The model lets every length up to [sleep_limit] pass and
    has the system refuse the longer ones, so that it never claims a sleep
    the system may refuse; what is proved of a sleep that succeeds is stated
    within [sleep_limit]. *)
Definition timestamp_max : Z := 9223372036.
Definition sleep_limit : Z := 2 ^ 31 - 1.

(** [time.sleep(secs)] for an integer [secs] *)
Definition time_sleep (secs : Z) : M unit :=
  if (secs <? - timestamp_max) || (timestamp_max <? secs)
  then raise OverflowError
  else if secs <? 0 then raise SleepLengthError
  else if sleep_limit <? secs then raise OSError
  else emit (Sleep secs).

(** ** The three strategies *)

(** The fields the subclass constructors add to the base object; none of
    them is written after construction.  ([SleepScheduler.done] and
    [ExecutorScheduler.messages] are never read by the callbacks below.) *)
Inductive Strategy :=
  | ExecutorScheduler (command : string) (uris : list string)
      (container : option string)
  | SleepScheduler (sleep : Z) (uris : list string) (container : option string)
  | PGScheduler (container : option string).

Definition wiki : string := "https://en.wikipedia.org/wiki/Main_Page".

(** The constructors' defaults. *)
Definition SleepScheduler_default : Strategy * Z :=
  (SleepScheduler 10 [wiki] None, 5).
Definition PGScheduler_default : Strategy * Z :=
  (PGScheduler (Some "docker:///zaiste/postgresql"), 10).

(** The tail shared by the three [statusUpdate] overrides. *)
Definition stop_if_done : M unit :=
  let* s := get_self in
  if all_tasks_done s then sum_up;; emit stop else ret tt.

Definition ExecutorScheduler_statusUpdate (update : TaskStatus.t) : M unit :=
  Scheduler_statusUpdate update;;
  (if decide (TaskStatus.state update = TASK_RUNNING) then ret tt else ret tt);;
  stop_if_done.

Definition SleepScheduler_statusUpdate (update : TaskStatus.t) : M unit :=
  Scheduler_statusUpdate update;;
  stop_if_done.

Definition PGScheduler_statusUpdate (update : TaskStatus.t) : M unit :=
  Scheduler_statusUpdate update;;
  (if decide (TaskStatus.state update = TASK_RUNNING)
   then time_sleep 2;; emit (killTask (TaskStatus.task_id update))
   else ret tt);;
  stop_if_done.

Definition statusUpdate (v : Strategy) (update : TaskStatus.t) : M unit :=
  match v with
  | ExecutorScheduler _ _ _ => ExecutorScheduler_statusUpdate update
  | SleepScheduler _ _ _ => SleepScheduler_statusUpdate update
  | PGScheduler _ => PGScheduler_statusUpdate update
  end.

(** [for offer in offers: if len(self.tasks) >= self.trials: break; body] *)
Fixpoint for_offers (body : Offer.t -> M unit) (offers : list Offer.t) : M unit :=
  match offers with
  | [] => ret tt
  | offer :: rest =>
      let* s := get_self in
      if Z.of_nat (length (tasks s)) >=? trials s then ret tt
      else body offer;; for_offers body rest
  end.

(** The lines every loop body ends with:
    [self.tasks += [task]; self.loggers[tid].info(present_task(task));
     driver.launchTasks(offer.id, [task])] *)
Definition launch (offer : Offer.t) (tid : string) (task : TaskInfo.t) : M unit :=
  modify_self (set_tasks (fun tasks => (tasks ++ [task])%list));;
  loggers_info tid (present_task task);;
  emit (launchTasks (Offer.id offer) [task]).

Definition ExecutorScheduler_resourceOffers (offers : list Offer.t) : M unit :=
  for_offers
    (fun offer =>
       let* tid := next_task_id in
       let sid := Offer.slave_id offer in
       let task := task_with_executor tid sid Args0 in
       launch offer tid task)
    offers.

(** [delay = int(float(self.sleep) / self.trials)] *)
Definition SleepScheduler_delay (sleep : Z) : M Z :=
  let* s := get_self in
  match float_delay sleep (trials s) with
  | inl e => raise e
  | inr delay => ret delay
  end.

Definition SleepScheduler_resourceOffers
    (sleep : Z) (uris : list string) (container : option string)
    (offers : list Offer.t) : M unit :=
  let* delay := SleepScheduler_delay sleep in
  for_offers
    (fun offer =>
       time_sleep delay;;
       let* tid := next_task_id in
       let sid := Offer.slave_id offer in
       let cmd := "date -u +%T ; sleep " ++ str sleep ++ " ; date -u +%T" in
       let task := task_with_command tid sid (Args3 cmd uris container) in
       launch offer tid task)
    offers.

Definition PGScheduler_resourceOffers
    (container : option string) (offers : list Offer.t) : M unit :=
  for_offers
    (fun offer =>
       time_sleep 2;;
       let* tid := next_task_id in
       let sid := Offer.slave_id offer in
       let task := task_with_daemon tid sid container in
       launch offer tid task)
    offers.

Definition resourceOffers (v : Strategy) (offers : list Offer.t) : M unit :=
  match v with
  | ExecutorScheduler _ _ _ => ExecutorScheduler_resourceOffers offers
  | SleepScheduler sleep uris container =>
      SleepScheduler_resourceOffers sleep uris container offers
  | PGScheduler container => PGScheduler_resourceOffers container offers
  end.

(** ** The end of [cli] *)

Definition Status_Name (code : Status) : string :=
  match code with
  | DRIVER_NOT_STARTED => "DRIVER_NOT_STARTED"
  | DRIVER_RUNNING => "DRIVER_RUNNING"
  | DRIVER_ABORTED => "DRIVER_ABORTED"
  | DRIVER_STOPPED => "DRIVER_STOPPED"
  end.

(** [any(_ in Scheduler.failed for _ in scheduler.statuses.values())] *)
Definition any_failed (s : Scheduler) : bool :=
  existsb (fun c => bool_decide (c ∈ failed)) (values (statuses s)).

(** What [cli] does once [driver.run()] has returned [code]; the result is
    the argument of [os._exit]. *)
Definition cli_exit (code : Status) : M Z :=
  emit (Log log INFO (Text (Status_Name code)));;
  emit stop;;
  if decide (code <> DRIVER_STOPPED) then
    emit (Log log ERROR (Text "Driver died in an anomalous state"));;
    ret 2
  else
    let* s := get_self in
    if any_failed s then
      emit (Log log ERROR (Text "Test run failed -- not all tasks made it"));;
      ret 1
    else ret 0.

(** ** Runs: the callbacks the driver delivers *)

Inductive Event :=
  | Offers (offers : list Offer.t)
  | Update (update : TaskStatus.t).

Definition callback (v : Strategy) (e : Event) : M unit :=
  match e with
  | Offers offers => resourceOffers v offers
  | Update update => statusUpdate v update
  end.

(** The world after the driver has made the callbacks [es] one after the
    other.  Every call leaves its effect on the object, whether it returns or
    raises. *)
Definition deliver (v : Strategy) (es : list Event) (w : World) : World :=
  fold_left (fun w e => (callback v e w).1) es w.

(** The same run when the first exception ends it, as a Python loop over the
    events would: the remaining events are not delivered. *)
Fixpoint run (v : Strategy) (es : list Event) : M unit :=
  match es with
  | [] => ret tt
  | e :: rest => callback v e;; run v rest
  end.

(** A new scheduler object and an empty trace. *)
Definition start (tok : string) (trials : Z) : World :=
  {| self := Scheduler_init tok trials; out := [] |}.


(** ** Vocabulary of the statements *)

Definition update_id (update : TaskStatus.t) : string :=
  TaskID.value (TaskStatus.task_id update).

(** The object once [update] has been recorded: [statuses[task] = code]. *)
Definition recorded (update : TaskStatus.t) (s : Scheduler) : Scheduler :=
  set_statuses (insert (update_id update) (TaskStatus.state update)) s.

(** The record [sum_up] hands to the root logger. *)
Definition summary_line (s : Scheduler) : Effect :=
  Log log INFO
    (Text (join " " ((fun '(k, v) => k ++ "=" ++ str (Z.of_nat v))
                       <$> task_status_summary s))).

(** What a strategy does about the new state between the base class's log
    record and the completion check. *)
Definition reaction (v : Strategy) (update : TaskStatus.t) : list Effect :=
  match v with
  | PGScheduler _ =>
      if decide (TaskStatus.state update = TASK_RUNNING)
      then [Sleep 2; killTask (TaskStatus.task_id update)] else []
  | _ => []
  end.

(** The id [next_task_id] builds when [n] tasks exist. *)
Definition short_id_at (tok : string) (n : nat) : string :=
  tok ++ "-task" ++ fmt02d n.
Definition task_id_at (tok : string) (n : nat) : string :=
  "medea-test." ++ short_id_at tok n.

(** The object after [next_task_id], and after the launch of [task]. *)
Definition registered_id (s : Scheduler) : Scheduler :=
  set_loggers
    (insert (task_id_at (token s) (length (tasks s)))
       (getChild log (short_id_at (token s) (length (tasks s))))) s.

Definition launched (task : TaskInfo.t) (s : Scheduler) : Scheduler :=
  set_tasks (fun tasks => (tasks ++ [task])%list) (registered_id s).

Definition launched_ids (s : Scheduler) : list string :=
  (fun task => TaskID.value (TaskInfo.task_id task)) <$> tasks s.

(** How the object changes over a run: by launches, each made below capacity
    under the id [next_task_id] gives at that moment, and by recorded status
    updates. *)
Inductive evolves : Scheduler -> Scheduler -> Prop :=
  | evolves_refl s : evolves s s
  | evolves_launch s s' task :
      evolves s s' ->
      Z.of_nat (length (tasks s')) < trials s' ->
      TaskID.value (TaskInfo.task_id task)
        = task_id_at (token s') (length (tasks s')) ->
      evolves s (launched task s')
  | evolves_status s s' update :
      evolves s s' -> evolves s (recorded update s').

(** The status updates among the events of a run, in order. *)
Definition updates_of (es : list Event) : list TaskStatus.t :=
  omap (fun e => match e with Update u => Some u | Offers _ => None end) es.

(** The last-known status of task [id] once the updates [us] have reached a
    scheduler whose dictionary was [init]: the state of the latest update for
    [id], and what [init] held when there is none. *)
Definition last_known (init : gmap string TaskState) (us : list TaskStatus.t)
    (id : string) : option TaskState :=
  match last (filter (fun u => update_id u = id) us) with
  | Some u => Some (TaskStatus.state u)
  | None => init !! id
  end.

(** Every id that has a status at all, once each. *)
Definition seen_ids (init : gmap string TaskState) (us : list TaskStatus.t)
  : list string :=
  remove_dups ((map_to_list init).*1 ++ (update_id <$> us)).

Definition in_set (S : gset TaskState) (o : option TaskState) : Prop :=
  exists c, o = Some c /\ c ∈ S.

Global Instance in_set_dec S o : Decision (in_set S o).
Proof.
  destruct o as [c|].
  - destruct (decide (c ∈ S)); [left; by exists c|right].
    by intros (c' & [= <-] & ?).
  - right. by intros (c' & [=] & ?).
Defined.

(** The distinct task ids whose last-known status is terminal. *)
Definition terminal_ids (init : gmap string TaskState) (us : list TaskStatus.t)
  : list string :=
  filter (fun id => in_set terminal (last_known init us id)) (seen_ids init us).

(** Driver [stop] calls and summary records in a trace. *)
Definition stop_calls (tr : list Effect) : nat :=
  length (filter (fun e => e = stop) tr).

Definition is_summary (e : Effect) : bool :=
  match e with
  | Log logger INFO _ => bool_decide (logger = log)
  | _ => false
  end.

Definition summary_lines (tr : list Effect) : nat :=
  length (filter (fun e => is_summary e = true) tr).

(** The keys of [loggers] are the ids of the tasks launched so far. *)
Definition consistent (s : Scheduler) : Prop :=
  forall id, is_Some (loggers s !! id) <-> id ∈ launched_ids s.

(** The data-model invariant on [statuses]: only launched tasks have one. *)
Definition statuses_known (s : Scheduler) : Prop :=
  forall id, is_Some (statuses s !! id) -> id ∈ launched_ids s.

(** A loop body that either raises before touching anything or launches one
    task under the id [next_task_id] gives. *)
Definition launches (body : Offer.t -> M unit) : Prop :=
  forall offer w,
    (exists e, body offer w = (w, inl e))
    \/ (exists task effs,
          TaskID.value (TaskInfo.task_id task)
            = task_id_at (token (self w)) (length (tasks (self w)))
          /\ body offer w
             = ({| self := launched task (self w); out := out w ++ effs |},
                inr tt)).

(** *** The calls of [next_task_id]

    [next_task_id] is called at one place in each strategy, the body of the
    [resourceOffers] loop: after [pause], the strategy's [time.sleep] if it
    has one, and before [launch], which is handed the id returned and the
    task [task_for] builds under that id. *)
Definition pause (v : Strategy) (delay : Z) : M unit :=
  match v with
  | ExecutorScheduler _ _ _ => ret tt
  | SleepScheduler _ _ _ => time_sleep delay
  | PGScheduler _ => time_sleep 2
  end.

Definition task_for (v : Strategy) (offer : Offer.t) (tid : string)
  : TaskInfo.t :=
  let sid := Offer.slave_id offer in
  match v with
  | ExecutorScheduler _ _ _ => task_with_executor tid sid Args0
  | SleepScheduler sleep uris container =>
      let cmd := "date -u +%T ; sleep " ++ str sleep ++ " ; date -u +%T" in
      task_with_command tid sid (Args3 cmd uris container)
  | PGScheduler container => task_with_daemon tid sid container
  end.

Definition loop_body (v : Strategy) (delay : Z) (offer : Offer.t) : M unit :=
  pause v delay;;
  let* tid := next_task_id in
  launch offer tid (task_for v offer tid).

(** What a strategy computes before its loop: the delay, for
    [SleepScheduler]. *)
Definition loop_delay (v : Strategy) (s : Scheduler) : Exn + Z :=
  match v with
  | SleepScheduler sleep _ _ => float_delay sleep (trials s)
  | _ => inr 0
  end.

(** The loop [for_offers (loop_body v delay)] run step by step, with a record
    of its calls of [next_task_id] next to its outcome: one entry for each
    call, in order, holding the task count [len(self.tasks)] at the call and
    the id the call returned. *)
Fixpoint for_offers_calls (v : Strategy) (delay : Z) (offers : list Offer.t)
    (w : World) : (World * (Exn + unit)) * list (nat * string) :=
  match offers with
  | [] => ((w, inr tt), [])
  | offer :: rest =>
      if Z.of_nat (length (tasks (self w))) >=? trials (self w)
      then ((w, inr tt), [])
      else
        match pause v delay w with
        | (w1, inl e) => ((w1, inl e), [])
        | (w1, inr _) =>
            match next_task_id w1 with
            | (w2, inl e) => ((w2, inl e), [])
            | (w2, inr tid) =>
                let call := (length (tasks (self w1)), tid) in
                match launch offer tid (task_for v offer tid) w2 with
                | (w3, inl e) => ((w3, inl e), [call])
                | (w3, inr _) =>
                    let '(r, calls) := for_offers_calls v delay rest w3 in
                    (r, call :: calls)
                end
            end
        end
  end.

(** [resourceOffers] with the record of its calls. *)
Definition resourceOffers_calls (v : Strategy) (offers : list Offer.t)
    (w : World) : (World * (Exn + unit)) * list (nat * string) :=
  match loop_delay v (self w) with
  | inl e => ((w, inl e), [])
  | inr delay => for_offers_calls v delay offers w
  end.

(** The calls of [next_task_id] over a run: those of its offer batches, one
    batch after the other ([statusUpdate] makes none). *)
Fixpoint calls_of_run (v : Strategy) (es : list Event) (w : World)
  : list (nat * string) :=
  match es with
  | [] => []
  | Offers offers :: rest =>
      ((resourceOffers_calls v offers w).2
         ++ calls_of_run v rest (resourceOffers v offers w).1)%list
  | Update update :: rest =>
      calls_of_run v rest (statusUpdate v update w).1
  end.

(** The dictionary after the updates [us] have been recorded in order. *)
Definition record_all (us : list TaskStatus.t) (m : gmap string TaskState)
  : gmap string TaskState :=
  fold_left (fun m u => <[update_id u := TaskStatus.state u]> m) us m.

(** ** Concrete runs *)

Definition offer1 : Offer.t :=
  {| Offer.id := {| OfferID.value := "offer-1" |};
     Offer.slave_id := {| SlaveID.value := "slave-1" |} |}.

Definition offer2 : Offer.t :=
  {| Offer.id := {| OfferID.value := "offer-2" |};
     Offer.slave_id := {| SlaveID.value := "slave-2" |} |}.

Definition status_of (id : string) (code : TaskState) : TaskStatus.t :=
  {| TaskStatus.task_id := {| TaskID.value := id |};
     TaskStatus.state := code;
     TaskStatus.message := None |}.

Definition sleep_strategy : Strategy := SleepScheduler 10 [wiki] None.

(** A sleep scheduler with one trial, after it has launched its task on the
    first offer. *)
Definition one_trial : World :=
  deliver sleep_strategy [Offers [offer1]] (start "0badcafe" 1).

Definition task00 : string := "medea-test.0badcafe-task00".

(** Three trials, three offers, all three tasks launched. *)
Definition three_trials : World :=
  deliver sleep_strategy [Offers [offer1; offer2; offer1]]
    (start "0badcafe" 3).

Definition task01 : string := "medea-test.0badcafe-task01".
Definition task02 : string := "medea-test.0badcafe-task02".

(** ** Vocabulary of the further properties *)

(** The [launchTasks] and [killTask] calls of a trace, in order. *)
Definition launch_calls (tr : list Effect)
  : list (OfferID.t * list TaskInfo.t) :=
  omap (fun e =>
          match e with launchTasks o ts => Some (o, ts) | _ => None end) tr.

Definition kill_calls (tr : list Effect) : list TaskID.t :=
  omap (fun e => match e with killTask tid => Some tid | _ => None end) tr.

(** How many more tasks the capacity test lets through:
    [trials - len(tasks)], none when that is negative. *)
Definition remaining (s : Scheduler) : nat :=
  Z.to_nat (trials s - Z.of_nat (length (tasks s))).

(** [launches], with what the body leaves in the trace: one [launchTasks]
    for the offer with the one new task, placed on the offer's slave, and
    neither a [stop] nor a [killTask]. *)
Definition launches_on (body : Offer.t -> M unit) : Prop :=
  forall offer w,
    (exists e, body offer w = (w, inl e))
    \/ (exists task effs,
          SlaveID.value (TaskInfo.slave_id task)
            = SlaveID.value (Offer.slave_id offer)
          /\ launch_calls effs = [(Offer.id offer, [task])]
          /\ stop_calls effs = 0%nat
          /\ kill_calls effs = []
          /\ body offer w
             = ({| self := launched task (self w); out := out w ++ effs |},
                inr tt)).

(** The number [all_tasks_done] compares with [trials]: [len(agg)]. *)
Definition terminal_count (s : Scheduler) : nat :=
  length (filter (fun c => c ∈ terminal) (values (statuses s))).

(** The task ids whose recorded status is [c]. *)
Definition ids_in_state (s : Scheduler) (c : TaskState) : list string :=
  (filter (fun kv : string * TaskState => kv.2 = c) (items (statuses s))).*1.

(** ** The command line: from the parsed options to the scheduler *)

(** [s.split(sep)] for a non-empty separator: cut at the occurrences of
    [sep], scanning from the left.  [skip] counts the characters of a matched
    separator still to be passed over, [cur] is the piece being read. *)
Fixpoint split_go (sep : string) (skip : nat) (cur s : string) : list string :=
  match s with
  | EmptyString => [cur]
  | String ch rest =>
      match skip with
      | S k => split_go sep k cur rest
      | O =>
          if String.prefix sep s
          then cur :: split_go sep (String.length sep - 1) "" rest
          else split_go sep 0 (cur ++ String ch "") rest
      end
  end.

Definition split (sep s : string) : list string := split_go sep 0 "" s.

(** The values [argparse] stores: [None] for an option that was not given, a
    string, an [int] (for [type=int]) or a list of strings (for
    [action="append"]). *)
Inductive ArgValue :=
  | VNone
  | VStr (s : string)
  | VInt (n : Z)
  | VList (l : list string).

(** Python truthiness of such a value, the [and v] of the filter. *)
Definition truth (v : ArgValue) : bool :=
  match v with
  | VNone => false
  | VStr s => negb (String.eqb s "")
  | VInt n => negb (n =? 0)
  | VList l => match l with [] => false | _ => true end
  end.

Inductive TestName := test_sleep | test_pg.

(** The namespace [parse_args] returns: [master] and [test] always hold a
    string (they have defaults, and [test] is one of the two choices); the
    five [--test.*] options are [None] unless given. *)
Record Namespace := mkNamespace {
  ns_master    : string;
  ns_test      : TestName;
  ns_container : option string;
  ns_sleep     : option Z;
  ns_trials    : option Z;
  ns_command   : option string;
  ns_uris      : option (list string)
}.

Definition TestName_str (t : TestName) : string :=
  match t with test_sleep => "sleep" | test_pg => "pg" end.

Definition opt_value {A} (f : A -> ArgValue) (o : option A) : ArgValue :=
  match o with Some a => f a | None => VNone end.

(** [vars(parsed).items()]: every option under its [dest], which for
    [--test.container] is ["test.container"]. *)
Definition vars (p : Namespace) : list (string * ArgValue) :=
  [ ("master", VStr (ns_master p));
    ("test", VStr (TestName_str (ns_test p)));
    ("test.container", opt_value VStr (ns_container p));
    ("test.sleep", opt_value VInt (ns_sleep p));
    ("test.trials", opt_value VInt (ns_trials p));
    ("test.command", opt_value VStr (ns_command p));
    ("test.uris", opt_value VList (ns_uris p)) ].

(** [pairs = [(k.split("test.")[1:], v) for k, v in vars(parsed).items()]] *)
Definition pairs (items : list (string * ArgValue))
  : list (list string * ArgValue) :=
  (fun '(k, v) => (tail (split "test." k), v)) <$> items.

(** [dict((k[0], v) for k, v in pairs if len(k) == 1 and v)]; a later pair
    replaces an earlier one with the same key. *)
Definition constructor_args (ps : list (list string * ArgValue))
  : gmap string ArgValue :=
  fold_left
    (fun d '(k, v) =>
       match k with
       | [k0] => if truth v then <[k0 := v]> d else d
       | _ => d
       end)
    ps ∅.

(** The outcome of calling [scheduler_class] with [constructor_args] as its
    keyword arguments: Python raises
    [TypeError] for a keyword the constructor does not have.  [Untyped]
    stands for an object this model's typed scheduler fields cannot hold (a
    string where the callbacks compute with an integer, say); no namespace
    leads there. *)
Inductive Built :=
  | TypeError
  | Untyped
  | Built_as (v : Strategy) (trials : Z).

Definition kw_int (d : gmap string ArgValue) (k : string) (dflt : Z)
  : option Z :=
  match d !! k with
  | None => Some dflt
  | Some (VInt n) => Some n
  | Some _ => None
  end.

Definition kw_uris (d : gmap string ArgValue) (k : string)
    (dflt : list string) : option (list string) :=
  match d !! k with
  | None => Some dflt
  | Some (VList l) => Some l
  | Some _ => None
  end.

Definition kw_container (d : gmap string ArgValue) (k : string)
    (dflt : option string) : option (option string) :=
  match d !! k with
  | None => Some dflt
  | Some (VStr s) => Some (Some s)
  | Some VNone => Some None
  | Some _ => None
  end.

Definition keywords_within (allowed : list string)
    (d : gmap string ArgValue) : bool :=
  forallb (fun k => bool_decide (k ∈ allowed)) (map_to_list d).*1.

(** [SleepScheduler] called with the keywords [kw]:
    [__init__(self, sleep=10, uris=[wiki], container=None, trials=5)] *)
Definition SleepScheduler_new (kw : gmap string ArgValue) : Built :=
  if keywords_within ["sleep"; "uris"; "container"; "trials"] kw then
    match kw_int kw "sleep" 10, kw_uris kw "uris" [wiki],
          kw_container kw "container" None, kw_int kw "trials" 5 with
    | Some sleep, Some uris, Some container, Some trials =>
        Built_as (SleepScheduler sleep uris container) trials
    | _, _, _, _ => Untyped
    end
  else TypeError.

(** [PGScheduler] called with the keywords [kw]:
    [__init__(self, container=..., trials=10)], the default container being
    the image of the definition below *)
Definition PGScheduler_new (kw : gmap string ArgValue) : Built :=
  if keywords_within ["container"; "trials"] kw then
    match kw_container kw "container" (Some "docker:///zaiste/postgresql"),
          kw_int kw "trials" 10 with
    | Some container, Some trials => Built_as (PGScheduler container) trials
    | _, _ => Untyped
    end
  else TypeError.

(** [schedulers[parsed.test]] called with [constructor_args] as keywords *)
Definition cli_scheduler (p : Namespace) : Built :=
  let constructor_args := constructor_args (pairs (vars p)) in
  match ns_test p with
  | test_sleep => SleepScheduler_new constructor_args
  | test_pg => PGScheduler_new constructor_args
  end.

(** [d[k] = v] if [v] is truthy, as the filter of [constructor_args] has
    it. *)
Definition set_if_truthy (k : string) (v : ArgValue)
    (d : gmap string ArgValue) : gmap string ArgValue :=
  if truth v then <[k := v]> d else d.

(** An option as a constructor sees it: the value given, unless it is
    missing or falsy. *)
Definition given {A} (f : A -> ArgValue) (o : option A) : option A :=
  match o with
  | Some a => if truth (f a) then Some a else None
  | None => None
  end.

(** The offers among the events of a run, batch after batch. *)
Definition offers_of (es : list Event) : list Offer.t :=
  mjoin (omap (fun e =>
                 match e with Offers os => Some os | Update _ => None end) es).

(** The seconds a trace spends in [time.sleep]. *)
Definition slept (tr : list Effect) : Z :=
  foldr (fun e acc => match e with Sleep secs => secs + acc | _ => acc end)
    0 tr.
(** * Properties *)

(** ** Task factories *)

Section Factories.
Implicit Types (shell tid : string) (uris : list string)
  (image : option string) (sid : SlaveID.t).

(** The loop [for uri in uris: command.uris.add().value = uri] appends the
    list and touches nothing else. *)
Lemma add_uris_spec uris (c : CommandInfo.t) :
  fold_left
    (fun c uri =>
       {| CommandInfo.value := CommandInfo.value c;
          CommandInfo.uris := CommandInfo.uris c ++ [uri];
          CommandInfo.container := CommandInfo.container c |})
    uris c
  = {| CommandInfo.value := CommandInfo.value c;
       CommandInfo.uris := CommandInfo.uris c ++ uris;
       CommandInfo.container := CommandInfo.container c |}.
Proof.
  revert c. induction uris as [|uri uris IH]; intros c; simpl.
  - rewrite app_nil_r. by destruct c.
  - rewrite IH. simpl. by rewrite <- app_assoc.
Qed.

Lemma command_eq shell uris image :
  command shell uris image
  = {| CommandInfo.value := Some shell;
       CommandInfo.uris := uris;
       CommandInfo.container :=
         if truthy image then Some {| ContainerInfo.image := image |}
         else None |}.
Proof.
  unfold command. rewrite add_uris_spec. simpl.
  destruct image as [s|]; simpl; [|done].
  by destruct (String.eqb s "").
Qed.

Lemma truthy_spec image : truthy image = true <-> exists s, image = Some s /\ s <> "".
Proof.
  destruct image as [s|]; simpl.
  - rewrite negb_true_iff. split.
    + intros H. exists s. split; [done|]. intros ->. by rewrite String.eqb_refl in H.
    + intros (s' & [= <-] & Hne). by apply String.eqb_neq.
  - split; [done|]. by intros (? & ? & ?).
Qed.

(** Merging a freshly built command into an empty message copies it. *)
Lemma MergeFrom_empty_command shell uris image :
  CommandInfo.MergeFrom CommandInfo.empty (command shell uris image)
  = command shell uris image.
Proof.
  rewrite command_eq. unfold CommandInfo.MergeFrom. simpl.
  destruct (truthy image) eqn:Himage; [|done].
  apply truthy_spec in Himage as (s & -> & _). done.
Qed.

(** C9: for every task id, node id and image, the daemon factory builds the
    very descriptor the command factory builds from an empty command
    string, no URIs and that image: the base task with, as its command, what
    [command] makes of these three arguments, and no executor. *)
Theorem task_with_daemon_is_command tid sid image :
  task_with_daemon tid sid image
  = task_with_command tid sid (Args3 "" [] image)
  /\ TaskInfo.command (task_with_command tid sid (Args3 "" [] image))
     = Some (command "" [] image)
  /\ TaskInfo.command (task_with_daemon tid sid image)
     = Some (command "" [] image)
  /\ TaskInfo.executor (task_with_daemon tid sid image) = None.
Proof.
  split; [reflexivity|].
  unfold task_with_daemon, task_with_command, set_command, command_star.
  simpl. by rewrite MergeFrom_empty_command.
Qed.

(** C10: the descriptor [command] builds has a container exactly when the
    image argument is a non-empty string, and then the container carries
    that image; an empty-string image gives the descriptor of no image at
    all; the shell command and the URI list are set whatever the image. *)
Theorem command_container_iff shell uris image :
  (is_Some (CommandInfo.container (command shell uris image))
     <-> exists s, image = Some s /\ s <> "")
  /\ (forall c, CommandInfo.container (command shell uris image) = Some c ->
        ContainerInfo.image c = image)
  /\ command shell uris (Some "") = command shell uris None
  /\ CommandInfo.value (command shell uris image) = Some shell
  /\ CommandInfo.uris (command shell uris image) = uris.
Proof.
  rewrite !command_eq. simpl. repeat split.
  - intros [c Hc]. apply truthy_spec. by destruct (truthy image).
  - intros H. apply truthy_spec in H. rewrite H. eauto.
  - intros c Hc. destruct (truthy image); by simplify_eq.
Qed.
End Factories.

(** ** Float arithmetic on integers below 2^53 *)

Section FloatExact.
Implicit Types (p q m : positive) (e d : Z) (sx : bool).

Lemma fexp_eq e : -1021 <= e -> SpecFloat.fexp prec emax e = e - 53.
Proof. unfold SpecFloat.fexp, SpecFloat.emin, prec, emax. lia. Qed.

Lemma digits2_pos_bounds p :
  2 ^ (Z.pos (SpecFloat.digits2_pos p) - 1) <= Z.pos p
  < 2 ^ Z.pos (SpecFloat.digits2_pos p).
Proof.
  induction p as [p IH|p IH|]; cbn [SpecFloat.digits2_pos].
  - rewrite Pos2Z.inj_succ. change (Z.pos p~1) with (2 * Z.pos p + 1).
    replace (Z.succ (Z.pos (SpecFloat.digits2_pos p)) - 1)
      with (Z.succ (Z.pos (SpecFloat.digits2_pos p) - 1)) by lia.
    rewrite !Z.pow_succ_r by lia.
    generalize dependent (2 ^ (Z.pos (SpecFloat.digits2_pos p) - 1)).
    generalize dependent (2 ^ Z.pos (SpecFloat.digits2_pos p)). lia.
  - rewrite Pos2Z.inj_succ. change (Z.pos p~0) with (2 * Z.pos p).
    replace (Z.succ (Z.pos (SpecFloat.digits2_pos p)) - 1)
      with (Z.succ (Z.pos (SpecFloat.digits2_pos p) - 1)) by lia.
    rewrite !Z.pow_succ_r by lia.
    generalize dependent (2 ^ (Z.pos (SpecFloat.digits2_pos p) - 1)).
    generalize dependent (2 ^ Z.pos (SpecFloat.digits2_pos p)). lia.
  - done.
Qed.

Lemma digits2_pos_unique p d :
  2 ^ (d - 1) <= Z.pos p < 2 ^ d -> Z.pos (SpecFloat.digits2_pos p) = d.
Proof.
  intros [Hlo Hhi]. pose proof (digits2_pos_bounds p) as [Hlo' Hhi'].
  set (d' := Z.pos (SpecFloat.digits2_pos p)) in *.
  assert (0 < d).
  { destruct (Z_lt_le_dec 0 d) as [|Hd]; [done|].
    destruct (Z.eq_dec d 0) as [->|]; [simpl in Hhi; lia|].
    rewrite Z.pow_neg_r in Hhi by lia. lia. }
  destruct (Z_lt_le_dec d' d) as [Hlt|Hge].
  - assert (2 ^ d' <= 2 ^ (d - 1)) by (apply Z.pow_le_mono_r; lia). lia.
  - destruct (Z.eq_dec d' d) as [|Hne]; [done|].
    assert (2 ^ d <= 2 ^ (d' - 1)) by (apply Z.pow_le_mono_r; lia). lia.
Qed.

Lemma iter_xO p k : Z.pos (Pos.iter xO p k) = Z.pos p * 2 ^ Z.pos k.
Proof.
  induction k as [|k IH] using Pos.peano_ind.
  - simpl. lia.
  - rewrite Pos.iter_succ, Pos2Z.inj_succ, Z.pow_succ_r by lia.
    change (Z.pos (Pos.iter xO p k)~0) with (2 * Z.pos (Pos.iter xO p k)).
    rewrite IH. lia.
Qed.

Lemma loc_of_record z l :
  SpecFloat.loc_of_shr_record (SpecFloat.shr_record_of_loc z l) = l
  /\ SpecFloat.shr_m (SpecFloat.shr_record_of_loc z l) = z.
Proof. by destruct l as [|[]]. Qed.

Lemma shr_fexp_none m e l :
  Z.pos (SpecFloat.digits2_pos m) = 53 -> -1000 <= e ->
  SpecFloat.shr_fexp prec emax (Z.pos m) e l
  = (SpecFloat.shr_record_of_loc (Z.pos m) l, e).
Proof.
  intros Hd He. unfold SpecFloat.shr_fexp. cbn [SpecFloat.Zdigits2].
  rewrite Hd, fexp_eq by lia.
  by replace (53 + e - 53 - e) with 0 by lia.
Qed.

Lemma shr_fexp_one m e l :
  Z.pos (SpecFloat.digits2_pos m) = 54 -> -1000 <= e ->
  SpecFloat.shr_fexp prec emax (Z.pos m) e l
  = (SpecFloat.shr_1 (SpecFloat.shr_record_of_loc (Z.pos m) l), e + 1).
Proof.
  intros Hd He. unfold SpecFloat.shr_fexp. cbn [SpecFloat.Zdigits2].
  rewrite Hd, fexp_eq by lia.
  by replace (54 + e - 53 - e) with 1 by lia.
Qed.

(** The first step of rounding a quotient of 53 or 54 bits: the mantissa cut
    to 53 bits and rounded is at most one away from the quotient, at the
    scale of the quotient, and below it only when the quotient is odd. *)
Lemma round_first q e l :
  2 ^ 52 <= Z.pos q < 2 ^ 54 -> -1000 <= e ->
  exists mb eb,
    (let '(mrs, e') := SpecFloat.shr_fexp prec emax (Z.pos q) e l in
     (SpecFloat.round_nearest_even (SpecFloat.shr_m mrs)
        (SpecFloat.loc_of_shr_record mrs), e')) = (Z.pos mb, eb)
    /\ 2 ^ 52 <= Z.pos mb <= 2 ^ 53
    /\ e <= eb <= e + 1
    /\ (Z.pos mb * 2 ^ (eb - e) = Z.pos q
        \/ Z.pos mb * 2 ^ (eb - e) = Z.pos q + 1
        \/ (Z.pos mb * 2 ^ (eb - e) = Z.pos q - 1
            /\ Z.odd (Z.pos q) = true)).
Proof.
  intros [Hlo Hhi] He.
  destruct (Z_lt_le_dec (Z.pos q) (2 ^ 53)) as [Hlt|Hge].
  - rewrite shr_fexp_none by first [apply digits2_pos_unique; lia|lia].
    destruct (loc_of_record (Z.pos q) l) as [-> ->].
    assert (Hup : Z.pos q + 1 = Z.pos (q + 1)) by lia.
    destruct l as [|[]]; cbn [SpecFloat.round_nearest_even];
      try destruct (Z.even (Z.pos q)); rewrite ?Hup;
      eexists _, e; (split; [reflexivity|]);
      rewrite Z.sub_diag, Z.mul_1_r; lia.
  - rewrite shr_fexp_one by first [apply digits2_pos_unique; lia|lia].
    replace (e + 1 - e) with 1 by lia.
    destruct q as [q|q|]; [| |lia].
    + assert (Hup : Z.pos q + 1 = Z.pos (q + 1)) by lia.
      destruct l as [|[]];
        cbn [SpecFloat.shr_1 SpecFloat.shr_record_of_loc
               SpecFloat.loc_of_shr_record SpecFloat.shr_m
               SpecFloat.round_nearest_even orb];
        try destruct (Z.even (Z.pos q));
        rewrite ?Hup; eexists _, (e + 1); (split; [reflexivity|]);
        replace (e + 1 - e) with 1 by lia;
        (split; [lia|]); (split; [lia|]);
        first [right; left; lia|right; right; split; [lia|reflexivity]].
    + destruct l as [|[]];
        cbn [SpecFloat.shr_1 SpecFloat.shr_record_of_loc
               SpecFloat.loc_of_shr_record SpecFloat.shr_m
               SpecFloat.round_nearest_even orb];
        eexists _, (e + 1); (split; [reflexivity|]);
        replace (e + 1 - e) with 1 by lia; lia.
Qed.

(** The second step: a mantissa that rounding has carried to 2^53 is cut
    once more; the value stays. *)
Lemma round_second sx mb e :
  2 ^ 52 <= Z.pos mb <= 2 ^ 53 -> -1000 <= e <= 900 ->
  exists mc ec,
    (let '(mrs, e2) :=
       SpecFloat.shr_fexp prec emax (Z.pos mb) e SpecFloat.loc_Exact in
     match SpecFloat.shr_m mrs with
     | Z0 => SpecFloat.S754_zero sx
     | Zpos m =>
         if e2 <=? emax - prec then SpecFloat.S754_finite sx m e2
         else SpecFloat.S754_infinity sx
     | Zneg _ => SpecFloat.S754_nan
     end) = SpecFloat.S754_finite sx mc ec
    /\ e <= ec <= e + 1
    /\ Z.pos mc * 2 ^ (ec - e) = Z.pos mb.
Proof.
  intros [Hlo Hhi] He.
  destruct (Z_lt_le_dec (Z.pos mb) (2 ^ 53)) as [Hlt|Hge].
  - rewrite shr_fexp_none by first [apply digits2_pos_unique; lia|lia].
    cbn [SpecFloat.shr_record_of_loc SpecFloat.shr_m].
    assert (Hle : (e <=? emax - prec) = true)
      by (apply Z.leb_le; unfold emax, prec; lia).
    rewrite Hle. exists mb, e. split; [done|].
    rewrite Z.sub_diag, Z.mul_1_r. lia.
  - assert (mb = 9007199254740992%positive) as -> by lia.
    rewrite shr_fexp_one by first [done|lia].
    cbn [SpecFloat.shr_record_of_loc SpecFloat.shr_1 SpecFloat.shr_m].
    assert (Hle : (e + 1 <=? emax - prec) = true)
      by (apply Z.leb_le; unfold emax, prec; lia).
    rewrite Hle. eexists _, (e + 1). split; [done|].
    replace (e + 1 - e) with 1 by lia. lia.
Qed.

(** Rounding a quotient of 53 or 54 bits to a float. *)
Lemma binary_round_aux_spec sx q e l :
  2 ^ 52 <= Z.pos q < 2 ^ 54 -> -1000 <= e <= 800 ->
  exists mc ec,
    SpecFloat.binary_round_aux prec emax sx (Z.pos q) e l
    = SpecFloat.S754_finite sx mc ec
    /\ e <= ec <= e + 2
    /\ (Z.pos mc * 2 ^ (ec - e) = Z.pos q
        \/ Z.pos mc * 2 ^ (ec - e) = Z.pos q + 1
        \/ (Z.pos mc * 2 ^ (ec - e) = Z.pos q - 1
            /\ Z.odd (Z.pos q) = true)).
Proof.
  intros Hq He.
  destruct (round_first q e l Hq ltac:(lia))
    as (mb & eb & Heq & Hmb & Heb & Hval).
  destruct (round_second sx mb eb Hmb ltac:(lia))
    as (mc & ec & Heq2 & Hec & Hval2).
  exists mc, ec. unfold SpecFloat.binary_round_aux.
  destruct (SpecFloat.shr_fexp prec emax (Z.pos q) e l) as [mrs e1].
  injection Heq as -> ->. split; [exact Heq2|]. split; [lia|].
  replace (ec - e) with ((ec - eb) + (eb - e)) by lia.
  rewrite Z.pow_add_r, Z.mul_assoc, Hval2 by lia. exact Hval.
Qed.

(** The float of a non-zero integer below 2^53: the integer itself, written
    with 53 bits. *)
Lemma binary_round_small sx p :
  Z.pos p < 2 ^ 53 ->
  exists m e,
    SpecFloat.binary_round prec emax sx p 0 = SpecFloat.S754_finite sx m e
    /\ -52 <= e <= 0
    /\ Z.pos m = Z.pos p * 2 ^ (- e)
    /\ Z.pos (SpecFloat.digits2_pos m) = 53.
Proof.
  intros Hp. pose proof (digits2_pos_bounds p) as [Hlo Hhi].
  set (d := Z.pos (SpecFloat.digits2_pos p)) in *.
  assert (Hd : 1 <= d <= 53).
  { split; [lia|].
    destruct (Z_lt_le_dec 53 d) as [Hgt|]; [|done].
    assert (2 ^ 53 <= 2 ^ (d - 1)) by (apply Z.pow_le_mono_r; lia). lia. }
  unfold SpecFloat.binary_round. fold d.
  rewrite Z.add_0_r, fexp_eq by lia. unfold SpecFloat.shl_align.
  assert (Hfinish : forall m,
            Z.pos m = Z.pos p * 2 ^ (53 - d) ->
            exists m' e,
              SpecFloat.binary_round_aux prec emax sx (Z.pos m) (d - 53)
                SpecFloat.loc_Exact
              = SpecFloat.S754_finite sx m' e
              /\ -52 <= e <= 0
              /\ Z.pos m' = Z.pos p * 2 ^ (- e)
              /\ Z.pos (SpecFloat.digits2_pos m') = 53).
  { intros m Hm.
    assert (Hm53 : 2 ^ 52 <= Z.pos m < 2 ^ 53).
    { rewrite Hm.
      replace 52 with ((d - 1) + (53 - d)) at 1 by lia.
      replace 53 with (d + (53 - d)) at 4 by lia.
      rewrite !Z.pow_add_r by lia.
      assert (0 < 2 ^ (53 - d)) by (apply Z.pow_pos_nonneg; lia). nia. }
    assert (Hdm : Z.pos (SpecFloat.digits2_pos m) = 53)
      by (apply digits2_pos_unique; lia).
    exists m, (d - 53). unfold SpecFloat.binary_round_aux.
    rewrite shr_fexp_none by first [done|lia].
    cbn [SpecFloat.shr_record_of_loc SpecFloat.shr_m
           SpecFloat.loc_of_shr_record SpecFloat.round_nearest_even].
    rewrite shr_fexp_none by first [done|lia].
    cbn [SpecFloat.shr_record_of_loc SpecFloat.shr_m].
    assert (Hle : (d - 53 <=? emax - prec) = true)
      by (apply Z.leb_le; unfold emax, prec; lia).
    rewrite Hle. split; [done|]. split; [lia|].
    split; [|done]. rewrite Hm. f_equal. f_equal. lia. }
  destruct (d - 53 - 0) as [|k|k] eqn:Hk.
  - replace (d - 53) with 0 in Hfinish by lia.
    apply Hfinish. replace (53 - d) with 0 by lia. lia.
  - lia.
  - apply Hfinish. rewrite iter_xO. f_equal. f_equal. lia.
Qed.

(** The quotient of two floats of 53 bits: the integer quotient of the
    mantissas, the dividend's shifted by 53 bits, rounded. *)
Lemma SFdiv_normal sx sy m1 m2 e1 e2 :
  Z.pos (SpecFloat.digits2_pos m1) = 53 ->
  Z.pos (SpecFloat.digits2_pos m2) = 53 ->
  -52 <= e1 <= 0 -> -52 <= e2 <= 0 ->
  SpecFloat.SFdiv prec emax (SpecFloat.S754_finite sx m1 e1)
    (SpecFloat.S754_finite sy m2 e2)
  = SpecFloat.binary_round_aux prec emax (xorb sx sy)
      (Z.pos m1 * 2 ^ 53 / Z.pos m2) (e1 - e2 - 53)
      (SpecFloat.new_location (Z.pos m2) ((Z.pos m1 * 2 ^ 53) mod Z.pos m2)).
Proof.
  intros H1 H2 He1 He2.
  unfold SpecFloat.SFdiv, SpecFloat.SFdiv_core_binary.
  cbn [SpecFloat.Zdigits2]. rewrite H1, H2. cbv zeta.
  rewrite fexp_eq by lia.
  rewrite Z.min_l by lia.
  replace (53 + e1 - (53 + e2) - 53) with (e1 - e2 - 53) by lia.
  replace (e1 - e2 - (e1 - e2 - 53)) with 53 by lia.
  cbv iota. rewrite Z.shiftl_mul_pow2 by lia.
  unfold Z.div, Z.modulo.
  by destruct (Z.div_eucl (Z.pos m1 * 2 ^ 53) (Z.pos m2)).
Qed.

Lemma div_succ_same x b :
  0 < b -> (x + 1) mod b <> 0 -> (x + 1) / b = x / b.
Proof.
  intros Hb Hr.
  apply (Z.div_unique x b ((x + 1) / b) ((x + 1) mod b - 1)).
  - pose proof (Z.mod_pos_bound (x + 1) b Hb). left. lia.
  - pose proof (Z.div_mod (x + 1) b ltac:(lia)). lia.
Qed.

(** The integer part of [m * 2 ^ ec], read at the scale [2 ^ - E]. *)
Lemma int_of_float_scaled s m ec E :
  0 <= E -> - E <= ec ->
  int_of_float (SpecFloat.S754_finite s m ec)
  = inr (SpecFloat.cond_Zopp s (Z.pos m * 2 ^ (ec + E) / 2 ^ E)).
Proof.
  intros HE Hec. unfold int_of_float. f_equal. f_equal.
  assert (H2 : forall n, 0 <= n -> 2 ^ n <> 0)
    by (intros n Hn; apply Z.pow_nonzero; lia).
  destruct ec as [|k|k].
  - rewrite Z.add_0_l, Z.div_mul by auto. simpl. lia.
  - rewrite Z.pow_add_r, Z.mul_assoc, Z.div_mul by (auto || lia). done.
  - replace E with (Z.pos k + (Z.neg k + E)) at 2 by lia.
    rewrite (Z.pow_add_r 2 (Z.pos k)) by lia.
    rewrite Z.div_mul_cancel_r by (apply H2; lia). done.
Qed.

(** The quotient of the floats of two positive integers below 2^53 has the
    integer quotient for its integer part: rounding to 53 bits never reaches
    the next integer. *)
Lemma int_of_quotient sx sy ps pt :
  Z.pos ps < 2 ^ 53 -> Z.pos pt < 2 ^ 53 ->
  exists x y,
    SpecFloat.binary_round prec emax sx ps 0 = x
    /\ SpecFloat.binary_round prec emax sy pt 0 = y
    /\ (forall s, x <> SpecFloat.S754_infinity s)
    /\ (forall s, y <> SpecFloat.S754_infinity s)
    /\ int_of_float (SpecFloat.SFdiv prec emax x y)
       = inr (SpecFloat.cond_Zopp (xorb sx sy) (Z.pos ps / Z.pos pt)).
Proof.
  intros Hps Hpt.
  destruct (binary_round_small sx ps Hps) as (m1 & e1 & -> & He1 & Hm1 & Hd1).
  destruct (binary_round_small sy pt Hpt) as (m2 & e2 & -> & He2 & Hm2 & Hd2).
  eexists _, _. split; [reflexivity|]. split; [reflexivity|].
  split; [done|]. split; [done|].
  rewrite SFdiv_normal by done.
  pose proof (digits2_pos_bounds m1) as B1. rewrite Hd1 in B1.
  pose proof (digits2_pos_bounds m2) as B2. rewrite Hd2 in B2.
  change (53 - 1) with 52 in B1, B2.
  set (N := Z.pos m1 * 2 ^ 53). set (D := Z.pos m2).
  set (E := 53 + e2 - e1). set (P := 2 ^ (53 - e1)).
  assert (HP : 2 ^ 53 <= P) by (apply Z.pow_le_mono_r; lia).
  assert (HE : 0 < 2 ^ E) by (apply Z.pow_pos_nonneg; lia).
  assert (HN : N = Z.pos ps * P).
  { unfold N, P. rewrite Hm1, <- Z.mul_assoc, <- Z.pow_add_r by lia.
    f_equal. f_equal. lia. }
  assert (HD : D * 2 ^ E = Z.pos pt * P).
  { unfold D, P, E. rewrite Hm2, <- Z.mul_assoc, <- Z.pow_add_r by lia.
    f_equal. f_equal. lia. }
  assert (HNlo : 2 ^ 105 <= N < 2 ^ 106).
  { unfold N. change (2 ^ 105) with (2 ^ 52 * 2 ^ 53).
    change (2 ^ 106) with (2 ^ 53 * 2 ^ 53). lia. }
  assert (Hq : 2 ^ 52 <= N / D < 2 ^ 54).
  { split.
    - apply Z.div_le_lower_bound; [lia|].
      change (2 ^ 105) with (2 ^ 53 * 2 ^ 52) in HNlo. nia.
    - apply Z.div_lt_upper_bound; [lia|].
      change (2 ^ 106) with (2 ^ 52 * 2 ^ 54) in HNlo. nia. }
  pose proof (Z.div_mod N D ltac:(lia)) as Hdm.
  pose proof (Z.mod_pos_bound N D ltac:(lia)) as Hr.
  assert (F1 : N / D / 2 ^ E = Z.pos ps / Z.pos pt).
  { rewrite Z.div_div, HD, HN by lia.
    apply Z.div_mul_cancel_r; lia. }
  assert (F3 : (N / D + 1) mod 2 ^ E <> 0).
  { intros H0. apply Z.mod_divide in H0; [|lia]. destruct H0 as [j Hj].
    assert (Hk : P * (Z.pos pt * j - Z.pos ps) = D - N mod D).
    { rewrite Z.mul_sub_distr_l.
      replace (P * (Z.pos pt * j)) with (j * (Z.pos pt * P)) by lia.
      rewrite <- HD.
      replace (j * (D * 2 ^ E)) with (D * (j * 2 ^ E)) by lia.
      rewrite <- Hj. lia. }
    destruct (Z_le_gt_dec (Z.pos pt * j - Z.pos ps) 0) as [Hle|Hgt].
    - assert (P * (Z.pos pt * j - Z.pos ps) <= 0)
        by (apply Z.mul_nonneg_nonpos; lia).
      lia.
    - assert (P * 1 <= P * (Z.pos pt * j - Z.pos ps))
        by (apply Z.mul_le_mono_nonneg_l; lia).
      lia. }
  destruct (N / D) as [|q|q] eqn:HQ; [lia| |lia].
  destruct (binary_round_aux_spec (xorb sx sy) q (e1 - e2 - 53)
              (SpecFloat.new_location D (N mod D)) Hq ltac:(lia))
    as (mc & ec & -> & Hec & Hval).
  rewrite (int_of_float_scaled _ mc ec E) by lia.
  f_equal. f_equal.
  replace (ec + E) with (ec - (e1 - e2 - 53)) by (unfold E; lia).
  rewrite <- F1.
  destruct Hval as [->|[->|[-> Hodd]]]; [done| |].
  - apply div_succ_same; lia.
  - symmetry. replace (Z.pos q) with (Z.pos q - 1 + 1) at 1 by lia.
    apply div_succ_same; [lia|].
    replace (Z.pos q - 1 + 1) with (Z.pos q) by lia.
    intros H0. apply Z.mod_divide in H0; [|lia]. destruct H0 as [j Hj].
    assert (HE1 : 2 ^ E = 2 * 2 ^ (E - 1)).
    { rewrite <- Z.pow_succ_r by (unfold E; lia). f_equal. lia. }
    rewrite Hj, HE1, Z.mul_assoc, Z.mul_comm, Z.odd_mul in Hodd.
    rewrite Z.odd_mul in Hodd. change (Z.odd 2) with false in Hodd.
    rewrite !andb_false_r in Hodd. done.
Qed.

Lemma float_of_int_finite n x :
  (forall s, x <> SpecFloat.S754_infinity s) ->
  SpecFloat.binary_normalize prec emax n 0 false = x ->
  float_of_int n = inr x.
Proof. unfold float_of_int. intros Hx ->. destruct x; try done. by destruct (Hx s). Qed.

(** Below 2^53 the delay is the integer quotient, truncated towards zero. *)
Lemma float_delay_exact sleep trials :
  Z.abs sleep < 2 ^ 53 -> Z.abs trials < 2 ^ 53 -> trials <> 0 ->
  float_delay sleep trials = inr (Z.quot sleep trials).
Proof.
  intros Hs Ht H0. unfold float_delay.
  assert (Hsign : forall sx sy ps pt,
            Z.pos ps < 2 ^ 53 -> Z.pos pt < 2 ^ 53 ->
            match
              float_of_int (SpecFloat.cond_Zopp sx (Z.pos ps))
            with
            | inl e => inl e
            | inr x =>
                match
                  float_of_int (SpecFloat.cond_Zopp sy (Z.pos pt))
                with
                | inl e => inl e
                | inr y =>
                    if SpecFloat.cond_Zopp sy (Z.pos pt) =? 0
                    then inl ZeroDivisionError
                    else int_of_float (SpecFloat.SFdiv prec emax x y)
                end
            end
            = inr (SpecFloat.cond_Zopp (xorb sx sy) (Z.pos ps / Z.pos pt))).
  { intros sx sy ps pt Hps Hpt.
    destruct (int_of_quotient sx sy ps pt Hps Hpt)
      as (x & y & Hx & Hy & Hxi & Hyi & Hint).
    rewrite (float_of_int_finite _ x Hxi), (float_of_int_finite _ y Hyi);
      [by destruct sy|by destruct sy|by destruct sx]. }
  assert (Hquot : forall ps pt, Z.pos ps ÷ Z.pos pt = Z.pos ps / Z.pos pt)
    by (intros; apply Z.quot_div_nonneg; lia).
  destruct trials as [|pt|pt]; [done| |]; destruct sleep as [|ps|ps].
  - destruct (binary_round_small false pt Ht) as (m & e & Hm & _).
    unfold float_of_int at 2. cbn [SpecFloat.binary_normalize]. rewrite Hm.
    done.
  - etrans; [apply (Hsign false false ps pt); lia|]. by rewrite Hquot.
  - etrans; [apply (Hsign true false ps pt); lia|].
    change (Z.neg ps) with (- Z.pos ps). by rewrite Z.quot_opp_l, Hquot by lia.
  - destruct (binary_round_small true pt Ht) as (m & e & Hm & _).
    unfold float_of_int at 2. cbn [SpecFloat.binary_normalize]. rewrite Hm.
    done.
  - etrans; [apply (Hsign false true ps pt); lia|].
    change (Z.neg pt) with (- Z.pos pt). by rewrite Z.quot_opp_r, Hquot by lia.
  - etrans; [apply (Hsign true true ps pt); lia|].
    change (Z.neg ps) with (- Z.pos ps). change (Z.neg pt) with (- Z.pos pt).
    by rewrite Z.quot_opp_l, Z.quot_opp_r, Hquot, Z.opp_involutive by lia.
Qed.

Lemma float_of_int_small n :
  Z.abs n < 2 ^ 53 -> exists x, float_of_int n = inr x.
Proof.
  intros Hn. destruct n as [|p|p].
  - by eexists.
  - destruct (binary_round_small false p Hn) as (m & e & Hm & _).
    eexists. apply float_of_int_finite; [|exact Hm]. done.
  - destruct (binary_round_small true p Hn) as (m & e & Hm & _).
    eexists. apply float_of_int_finite; [|exact Hm]. done.
Qed.
End FloatExact.

(** From 2^53 on the float quotient and the integer quotient part: the
    operands are rounded to 53 bits before the division. *)
Example float_delay_beyond_53_bits :
  float_delay (2 ^ 53 + 1) 3002399751580331 = inr 2
  /\ Z.quot (2 ^ 53 + 1) 3002399751580331 = 3
  /\ float_delay (- 2 ^ 53) (2 ^ 53 + 1) = inr (-1)
  /\ Z.quot (- 2 ^ 53) (2 ^ 53 + 1) = 0
  /\ float_delay (10 ^ 400) 1 = inl OverflowError
  /\ float_delay 1 (10 ^ 400) = inl OverflowError
  /\ float_delay 7 0 = inl ZeroDivisionError.
Proof. vm_compute. repeat split. Qed.

(** ** What one callback does *)

Section Callbacks.
Implicit Types (w : World) (s : Scheduler) (update : TaskStatus.t)
  (v : Strategy) (offers : list Offer.t).

Lemma Scheduler_statusUpdate_eq update w :
  Scheduler_statusUpdate update w
  = match loggers (self w) !! update_id update with
    | Some logger =>
        ({| self := recorded update (self w);
            out := out w ++ [Log logger INFO (Text (present_status update))] |},
         inr tt)
    | None =>
        ({| self := recorded update (self w); out := out w |},
         inl (KeyError (update_id update)))
    end.
Proof.
  unfold Scheduler_statusUpdate, loggers_info, bind, modify_self, get_self,
    emit, raise, recorded, update_id.
  simpl. by destruct (loggers (self w) !! _).
Qed.

Lemma stop_if_done_eq w :
  stop_if_done w
  = ({| self := self w;
        out := out w ++ (if all_tasks_done (self w)
                         then [summary_line (self w); stop] else []) |},
     inr tt).
Proof.
  unfold stop_if_done, sum_up, bind, get_self, emit, ret, summary_line.
  destruct (all_tasks_done (self w)); simpl.
  - by rewrite <- app_assoc.
  - rewrite app_nil_r. by destruct w.
Qed.

(** One status update, for the three strategies at once: the status is
    recorded first; with a logger registered for the id the call logs, reacts
    and checks for completion, without one it raises. *)
Lemma statusUpdate_eq v update w :
  statusUpdate v update w
  = match loggers (self w) !! update_id update with
    | Some logger =>
        ({| self := recorded update (self w);
            out := out w
                   ++ [Log logger INFO (Text (present_status update))]
                   ++ reaction v update
                   ++ (if all_tasks_done (recorded update (self w))
                       then [summary_line (recorded update (self w)); stop]
                       else []) |},
         inr tt)
    | None =>
        ({| self := recorded update (self w); out := out w |},
         inl (KeyError (update_id update)))
    end.
Proof.
  destruct v; unfold statusUpdate, ExecutorScheduler_statusUpdate,
    SleepScheduler_statusUpdate, PGScheduler_statusUpdate, reaction;
    unfold bind at 1; rewrite Scheduler_statusUpdate_eq;
    destruct (loggers (self w) !! update_id update) as [logger|]; try done.
  - unfold bind, ret. case_decide; rewrite stop_if_done_eq; simpl;
      by rewrite <- !app_assoc.
  - rewrite stop_if_done_eq. simpl. by rewrite <- !app_assoc.
  - unfold bind, ret, time_sleep, emit. simpl.
    case_decide; rewrite stop_if_done_eq; simpl; by rewrite <- !app_assoc.
Qed.

Lemma statusUpdate_self v update w :
  self (statusUpdate v update w).1 = recorded update (self w).
Proof. rewrite statusUpdate_eq. by destruct (loggers _ !! _). Qed.

Lemma next_task_id_eq w :
  next_task_id w
  = ({| self := registered_id (self w); out := out w |},
     inr (task_id_at (token (self w)) (length (tasks (self w))))).
Proof. reflexivity. Qed.

Lemma registered_id_lookup s :
  loggers (registered_id s) !! task_id_at (token s) (length (tasks s))
  = Some (getChild log (short_id_at (token s) (length (tasks s)))).
Proof. unfold registered_id. simpl. apply lookup_insert_eq. Qed.

(** [tid = self.next_task_id()] followed by the launch of a task built from
    [tid]. *)
Lemma next_then_launch (mk : string -> TaskInfo.t) offer w :
  (let* tid := next_task_id in launch offer tid (mk tid)) w
  = (let tid := task_id_at (token (self w)) (length (tasks (self w))) in
     {| self := launched (mk tid) (self w);
        out := out w
               ++ [Log (getChild log (short_id_at (token (self w))
                                        (length (tasks (self w)))))
                     INFO (present_task (mk tid));
                   launchTasks (Offer.id offer) [mk tid]] |},
     inr tt).
Proof.
  unfold bind at 1. rewrite next_task_id_eq.
  unfold launch, loggers_info.
  unfold bind, modify_self, get_self, emit. simpl.
  rewrite lookup_insert_eq. simpl. by rewrite <- app_assoc.
Qed.

Lemma sleep_limit_eq : sleep_limit = 2147483647.
Proof. reflexivity. Qed.

(** [time.sleep] appends one [Sleep] for a length it accepts, and otherwise
    raises with nothing done. *)
Lemma time_sleep_eq secs w :
  time_sleep secs w
  = if (0 <=? secs) && (secs <=? sleep_limit)
    then ({| self := self w; out := out w ++ [Sleep secs] |}, inr tt)
    else (w, inl (if (secs <? - timestamp_max) || (timestamp_max <? secs)
                  then OverflowError
                  else if secs <? 0 then SleepLengthError else OSError)).
Proof.
  unfold time_sleep. rewrite sleep_limit_eq. unfold timestamp_max.
  repeat match goal with
         | |- context [?a <? ?b] => destruct (Z.ltb_spec a b)
         | |- context [?a <=? ?b] => destruct (Z.leb_spec a b)
         end; simpl; done || lia.
Qed.

Lemma time_sleep_ok secs w :
  0 <= secs <= sleep_limit ->
  time_sleep secs w
  = ({| self := self w; out := out w ++ [Sleep secs] |}, inr tt).
Proof.
  intros [H0 H1]. rewrite time_sleep_eq.
  by rewrite (proj2 (Z.leb_le _ _) H0), (proj2 (Z.leb_le _ _) H1).
Qed.

Lemma sleep_2_ok : 0 <= 2 <= sleep_limit.
Proof. by rewrite sleep_limit_eq. Qed.

Lemma launches_plain (mk : Offer.t -> string -> TaskInfo.t) :
  (forall offer tid, TaskID.value (TaskInfo.task_id (mk offer tid)) = tid) ->
  launches (fun offer => let* tid := next_task_id in launch offer tid (mk offer tid)).
Proof.
  intros Hid offer w. right. rewrite (next_then_launch (mk offer)).
  eexists _, _. split; [apply Hid|]. reflexivity.
Qed.

Lemma launches_paced secs (mk : Offer.t -> string -> TaskInfo.t) :
  (forall offer tid, TaskID.value (TaskInfo.task_id (mk offer tid)) = tid) ->
  launches (fun offer =>
              time_sleep secs;;
              let* tid := next_task_id in launch offer tid (mk offer tid)).
Proof.
  intros Hid offer w.
  destruct ((0 <=? secs) && (secs <=? sleep_limit)) eqn:Hs; cycle 1.
  - left. eexists. unfold bind. by rewrite time_sleep_eq, Hs.
  - right. eexists _, _. split; cycle 1.
    { unfold bind at 1. rewrite time_sleep_eq, Hs. cbv beta iota.
      rewrite (next_then_launch (mk offer)). simpl.
      rewrite <- app_assoc. reflexivity. }
    apply Hid.
Qed.

Lemma evolves_trans s1 s2 s3 :
  evolves s1 s2 -> evolves s2 s3 -> evolves s1 s3.
Proof.
  intros H12 H23. induction H23 as [|? ? ? ? IH|? ? ? ? IH]; [done| |].
  - apply evolves_launch; auto.
  - apply evolves_status; auto.
Qed.

Lemma for_offers_full body offers w :
  trials (self w) <= Z.of_nat (length (tasks (self w))) ->
  for_offers body offers w = (w, inr tt).
Proof.
  intros Hfull. destruct offers as [|offer rest]; [done|].
  simpl. unfold bind, get_self.
  by rewrite (proj2 (Z.geb_le _ _) Hfull).
Qed.

Lemma for_offers_evolves body offers w :
  launches body -> evolves (self w) (self (for_offers body offers w).1).
Proof.
  intros Hbody. revert w.
  induction offers as [|offer rest IH]; intros w; simpl; [constructor|].
  unfold bind at 1, get_self.
  destruct (Z.of_nat (length (tasks (self w))) >=? trials (self w)) eqn:Hcap;
    [constructor|].
  unfold bind.
  destruct (Hbody offer w) as [[e ->]|(task & effs & Hid & ->)]; [constructor|].
  set (w' := {| self := launched task (self w); out := out w ++ effs |}).
  assert (Hstep : evolves (self w) (self w')).
  { simpl. apply evolves_launch; [constructor| |done].
    rewrite Z.geb_leb in Hcap. by apply Z.leb_gt in Hcap. }
  eapply evolves_trans; [exact Hstep|apply IH].
Qed.
End Callbacks.

(** ** Offer batches and whole runs *)

Section Runs.
Implicit Types (w : World) (s : Scheduler) (update : TaskStatus.t)
  (v : Strategy) (offers : list Offer.t) (es : list Event).

Lemma factory_ids tid sid a image :
  TaskID.value (TaskInfo.task_id (task_with_executor tid sid a)) = tid
  /\ TaskID.value (TaskInfo.task_id (task_with_command tid sid a)) = tid
  /\ TaskID.value (TaskInfo.task_id (task_with_daemon tid sid image)) = tid.
Proof. done. Qed.

(** The delay raises [ZeroDivisionError] for a zero [trials] and for no
    other. *)
Lemma float_delay_zero sleep trials :
  float_delay sleep trials = inl ZeroDivisionError -> trials = 0.
Proof.
  unfold float_delay, float_of_int, int_of_float.
  destruct (SpecFloat.binary_normalize prec emax sleep 0 false); try done;
    destruct (SpecFloat.binary_normalize prec emax trials 0 false); try done;
    destruct (trials =? 0) eqn:H0; try (by apply Z.eqb_eq in H0);
    by destruct (SpecFloat.SFdiv _ _ _ _).
Qed.

Lemma float_delay_by_zero sleep x :
  float_of_int sleep = inr x -> float_delay sleep 0 = inl ZeroDivisionError.
Proof. unfold float_delay. by intros ->. Qed.

Lemma SleepScheduler_delay_eq sleep w :
  SleepScheduler_delay sleep w
  = match float_delay sleep (trials (self w)) with
    | inl e => (w, inl e)
    | inr delay => (w, inr delay)
    end.
Proof.
  unfold SleepScheduler_delay, bind, get_self.
  by destruct (float_delay sleep (trials (self w))).
Qed.

Lemma SleepScheduler_resourceOffers_eq sleep uris container offers w :
  SleepScheduler_resourceOffers sleep uris container offers w
  = match float_delay sleep (trials (self w)) with
    | inl e => (w, inl e)
    | inr delay =>
        for_offers
          (fun offer =>
             time_sleep delay;;
             let* tid := next_task_id in
             launch offer tid
               (task_with_command tid (Offer.slave_id offer)
                  (Args3
                     ("date -u +%T ; sleep " ++ str sleep ++ " ; date -u +%T")
                     uris container)))
          offers w
    end.
Proof.
  unfold SleepScheduler_resourceOffers, bind at 1.
  rewrite SleepScheduler_delay_eq.
  by destruct (float_delay sleep (trials (self w))).
Qed.

(** Every strategy's [resourceOffers] is the capacity-guarded loop over a
    body that launches one task; [SleepScheduler] computes its delay first
    and raises when that cannot be computed. *)
Lemma resourceOffers_shape v offers w :
  exists body,
    launches body
    /\ (resourceOffers v offers w = for_offers body offers w
        \/ exists e, resourceOffers v offers w = (w, inl e)).
Proof.
  destruct v as [c uris container|sleep uris container|container]; simpl.
  - eexists. split; [|left; reflexivity].
    by apply (launches_plain
                (fun offer tid =>
                   task_with_executor tid (Offer.slave_id offer) Args0)).
  - rewrite SleepScheduler_resourceOffers_eq.
    destruct (float_delay sleep (trials (self w))) as [e|delay].
    + exists (fun _ => raise e). split; [|right; by eexists].
      intros offer w'. left. by eexists.
    + eexists. split; [|left; reflexivity].
      by apply (launches_paced _
                  (fun offer tid =>
                     task_with_command tid (Offer.slave_id offer)
                       (Args3 ("date -u +%T ; sleep " ++ str sleep
                               ++ " ; date -u +%T") uris container))).
  - eexists. split; [|left; reflexivity].
    by apply (launches_paced _
                (fun offer tid =>
                   task_with_daemon tid (Offer.slave_id offer) container)).
Qed.

(** Whatever every launch preserves, the loop preserves. *)
Lemma for_offers_preserves (P : Scheduler -> Prop) body offers w :
  (forall task s, P s -> P (launched task s)) ->
  launches body -> P (self w) -> P (self (for_offers body offers w).1).
Proof.
  intros HP Hbody. revert w.
  induction offers as [|offer rest IH]; intros w Hw; simpl; [done|].
  unfold bind at 1, get_self.
  destruct (Z.of_nat (length (tasks (self w))) >=? trials (self w)); [done|].
  unfold bind.
  destruct (Hbody offer w) as [[e ->]|(task & effs & Hid & ->)]; [done|].
  apply IH. simpl. by apply HP.
Qed.

Lemma resourceOffers_preserves (P : Scheduler -> Prop) v offers w :
  (forall task s, P s -> P (launched task s)) ->
  P (self w) -> P (self (resourceOffers v offers w).1).
Proof.
  intros HP Hw.
  destruct (resourceOffers_shape v offers w) as (body & Hbody & [-> | [e ->]]);
    [by apply for_offers_preserves|done].
Qed.

Lemma resourceOffers_evolves v offers w :
  evolves (self w) (self (resourceOffers v offers w).1).
Proof.
  destruct (resourceOffers_shape v offers w) as (body & Hbody & [-> | [e ->]]);
    [by apply for_offers_evolves|constructor].
Qed.

Lemma resourceOffers_statuses v offers w :
  statuses (self (resourceOffers v offers w).1) = statuses (self w).
Proof.
  by apply (resourceOffers_preserves
              (fun s => statuses s = statuses (self w))).
Qed.

(** At capacity an offer batch changes nothing, and nothing is raised on
    account of the capacity: the loop is left at its first test.  The one
    thing a full [SleepScheduler] can raise is what the computation of its
    delay raises, before the loop. *)
Lemma resourceOffers_full v offers w :
  trials (self w) <= Z.of_nat (length (tasks (self w))) ->
  resourceOffers v offers w
  = (w, match v with
        | SleepScheduler sleep _ _ =>
            match float_delay sleep (trials (self w)) with
            | inl e => inl e
            | inr _ => inr tt
            end
        | _ => inr tt
        end).
Proof.
  intros Hfull.
  destruct v as [c uris container|sleep uris container|container]; simpl.
  - unfold ExecutorScheduler_resourceOffers. by rewrite for_offers_full.
  - rewrite SleepScheduler_resourceOffers_eq.
    destruct (float_delay sleep (trials (self w))); [done|].
    by rewrite for_offers_full.
  - unfold PGScheduler_resourceOffers. by rewrite for_offers_full.
Qed.

Lemma callback_evolves v e w : evolves (self w) (self (callback v e w).1).
Proof.
  destruct e as [offers|update]; simpl.
  - apply resourceOffers_evolves.
  - rewrite statusUpdate_self. apply evolves_status. constructor.
Qed.

Lemma deliver_app v es1 es2 w :
  deliver v (es1 ++ es2) w = deliver v es2 (deliver v es1 w).
Proof. unfold deliver. by rewrite fold_left_app. Qed.

Lemma deliver_evolves v es w : evolves (self w) (self (deliver v es w)).
Proof.
  revert w. induction es as [|e es IH]; intros w; simpl; [constructor|].
  eapply evolves_trans; [apply callback_evolves|apply IH].
Qed.

(** A run that an exception ends has delivered a prefix of its events. *)
Lemma run_prefix v es w :
  exists n, (run v es w).1 = deliver v (take n es) w.
Proof.
  revert w. induction es as [|e es IH]; intros w; simpl.
  - by exists 0%nat.
  - unfold bind. destruct (callback v e w) as [w' [exn|[]]] eqn:Hcb.
    + exists 1%nat. simpl. by rewrite Hcb.
    + destruct (IH w') as [n Hn]. exists (S n). simpl. by rewrite Hcb.
Qed.

Lemma run_returns v es w :
  (run v es w).2 = inr tt -> (run v es w).1 = deliver v es w.
Proof.
  revert w. induction es as [|e es IH]; intros w; simpl; [done|].
  unfold bind. destruct (callback v e w) as [w' [exn|[]]] eqn:Hcb; [done|].
  intros H. by rewrite (IH w' H).
Qed.

(** *** What [evolves] preserves *)

Lemma evolves_fixed s s' :
  evolves s s' -> token s' = token s /\ trials s' = trials s.
Proof. induction 1; simpl; auto. Qed.

Lemma evolves_capacity s s' :
  evolves s s' ->
  Z.of_nat (length (tasks s)) <= trials s ->
  Z.of_nat (length (tasks s')) <= trials s'.
Proof.
  induction 1 as [|s s' task _ IH Hlt _|s s' update _ IH]; simpl; auto.
  intros _. rewrite length_app. simpl. lia.
Qed.

Lemma evolves_tasks s s' :
  evolves s s' ->
  exists n,
    length (tasks s') = (length (tasks s) + n)%nat
    /\ launched_ids s'
       = (launched_ids s
            ++ (task_id_at (token s) <$> seq (length (tasks s)) n))%list.
Proof.
  induction 1 as [|s s' task Hev IH Hlt Hid|s s' update _ IH].
  - exists 0%nat. simpl. by rewrite Nat.add_0_r, app_nil_r.
  - destruct IH as (n & Hlen & Hids). exists (S n).
    assert (Hl : length (tasks (launched task s')) = S (length (tasks s'))).
    { unfold launched. simpl. rewrite length_app. simpl. lia. }
    assert (Hi : launched_ids (launched task s')
                 = (launched_ids s' ++ [TaskID.value (TaskInfo.task_id task)])%list).
    { unfold launched_ids, launched. simpl. by rewrite fmap_app. }
    rewrite Hl, Hi, Hids, Hlen, seq_S, fmap_app, app_assoc.
    split; [lia|]. simpl.
    by rewrite Hid, Hlen, (proj1 (evolves_fixed _ _ Hev)).
  - destruct IH as (n & Hlen & Hids). by exists n.
Qed.

Lemma evolves_consistent s s' : evolves s s' -> consistent s -> consistent s'.
Proof.
  induction 1 as [|s s' task _ IH Hlt Hid|s s' update _ IH]; auto.
  intros Hs id. specialize (IH Hs id).
  unfold launched_ids, launched, registered_id in *. simpl.
  rewrite fmap_app, elem_of_app, <- IH. simpl.
  rewrite list_elem_of_singleton, Hid.
  destruct (decide (task_id_at (token s') (length (tasks s')) = id))
    as [->|Hne].
  - rewrite lookup_insert_eq. split; eauto.
  - rewrite lookup_insert_ne by done. split; [auto|]. intros [|]; congruence.
Qed.
End Runs.

(** ** The status dictionary *)

Section Statuses.
Implicit Types (m init : gmap string TaskState) (us : list TaskStatus.t)
  (S : gset TaskState) (id : string) (w : World) (v : Strategy)
  (es : list Event).

Lemma deliver_statuses v es w :
  statuses (self (deliver v es w))
  = record_all (updates_of es) (statuses (self w)).
Proof.
  revert w. induction es as [|[offers|update] es IH]; intros w; simpl; [done|..];
    rewrite IH; simpl.
  - by rewrite resourceOffers_statuses.
  - by rewrite statusUpdate_self.
Qed.

Lemma deliver_trials v es w : trials (self (deliver v es w)) = trials (self w).
Proof. apply evolves_fixed, deliver_evolves. Qed.

Lemma record_all_snoc us u m :
  record_all (us ++ [u]) m
  = <[update_id u := TaskStatus.state u]> (record_all us m).
Proof. unfold record_all. by rewrite fold_left_app. Qed.

Lemma last_known_snoc init us u id :
  last_known init (us ++ [u]) id
  = if decide (update_id u = id) then Some (TaskStatus.state u)
    else last_known init us id.
Proof.
  unfold last_known. rewrite filter_app.
  destruct (decide (update_id u = id)) as [Heq|Hne].
  - rewrite filter_cons_True by done. by rewrite filter_nil, last_snoc.
  - rewrite filter_cons_False by done. by rewrite filter_nil, app_nil_r.
Qed.

(** The dictionary holds, for every id, its last-known status. *)
Lemma record_all_lookup us init id :
  record_all us init !! id = last_known init us id.
Proof.
  induction us as [|u us IH] using rev_ind; [done|].
  rewrite record_all_snoc, last_known_snoc, lookup_insert.
  by destruct (decide (update_id u = id)).
Qed.

Lemma last_known_seen init us id :
  is_Some (last_known init us id) -> id ∈ seen_ids init us.
Proof.
  unfold seen_ids. rewrite elem_of_remove_dups, elem_of_app.
  induction us as [|u us IH] using rev_ind.
  - intros [c Hc]. left. apply list_elem_of_fmap.
    exists (id, c). split; [done|]. by apply elem_of_map_to_list.
  - rewrite last_known_snoc, fmap_app, elem_of_app. simpl.
    destruct (decide (update_id u = id)) as [<-|Hne].
    + intros _. right. right. apply list_elem_of_singleton. done.
    + intros H. destruct (IH H); auto.
Qed.

(** Counting the values of a dictionary that lie in [S] is counting, in any
    duplicate-free list covering the keys, the ids whose value lies in [S]. *)
Lemma count_values_by_id S m (L : list string) :
  NoDup L -> (forall id, is_Some (m !! id) -> id ∈ L) ->
  length (filter (fun c => c ∈ S) (values m))
  = length (filter (fun id => in_set S (m !! id)) L).
Proof.
  intros HL Hcover.
  set (K := filter (fun kv : string * TaskState => kv.2 ∈ S) (map_to_list m)).
  assert (Hlen : length (filter (fun c => c ∈ S) (values m)) = length (K.*1)).
  { rewrite length_fmap. unfold values, K.
    induction (map_to_list m) as [|[k c] l IH]; [done|].
    rewrite fmap_cons, !filter_cons. simpl.
    destruct (decide (c ∈ S)); simpl; auto. }
  rewrite Hlen. apply Permutation_length, NoDup_Permutation.
  - apply NoDup_fmap_fst.
    + intros k c1 c2 [_ H1]%list_elem_of_filter [_ H2]%list_elem_of_filter.
      apply elem_of_map_to_list in H1, H2. congruence.
    + apply NoDup_filter, NoDup_map_to_list.
  - by apply NoDup_filter.
  - intros id. rewrite list_elem_of_filter, list_elem_of_fmap. split.
    + intros ([k c] & -> & [Hc Hin]%list_elem_of_filter). simpl in *.
      apply elem_of_map_to_list in Hin. split; [by exists c|].
      apply Hcover. by exists c.
    + intros [(c & Hc & HS) _]. exists (id, c). split; [done|].
      apply list_elem_of_filter. split; [done|]. by apply elem_of_map_to_list.
Qed.

Lemma terminal_ids_NoDup init us : NoDup (terminal_ids init us).
Proof. apply NoDup_filter, NoDup_remove_dups. Qed.

Lemma elem_of_terminal_ids init us id :
  id ∈ terminal_ids init us <-> in_set terminal (last_known init us id).
Proof.
  unfold terminal_ids. rewrite list_elem_of_filter. split; [by intros []|].
  intros H. split; [done|]. apply last_known_seen.
  destruct H as (c & -> & _). by eexists.
Qed.

(** The number [all_tasks_done] compares with [trials]. *)
Lemma count_terminal init us :
  length (filter (fun c => c ∈ terminal) (values (record_all us init)))
  = length (terminal_ids init us).
Proof.
  rewrite (count_values_by_id _ _ (seen_ids init us)).
  - unfold terminal_ids. f_equal. apply list_filter_iff.
    intros id. by rewrite record_all_lookup.
  - apply NoDup_remove_dups.
  - intros id. rewrite record_all_lookup. apply last_known_seen.
Qed.

Lemma any_failed_spec (s : Scheduler) :
  any_failed s = true <-> exists id, in_set failed (statuses s !! id).
Proof.
  unfold any_failed, values. rewrite existsb_exists. split.
  - intros (c & Hin & Hc). apply bool_decide_eq_true in Hc.
    apply list_elem_of_In, list_elem_of_fmap in Hin as ([id c'] & -> & Hin).
    apply elem_of_map_to_list in Hin. exists id, c'. done.
  - intros (id & c & Hid & Hc). exists c. split.
    + apply list_elem_of_In, list_elem_of_fmap. exists (id, c).
      split; [done|]. by apply elem_of_map_to_list.
    + by apply bool_decide_eq_true.
Qed.
End Statuses.

(** ** Completion, failure and re-delivery *)

Section Completion.
Implicit Types (init : gmap string TaskState) (us : list TaskStatus.t)
  (id : string) (w : World) (v : Strategy) (es : list Event)
  (update : TaskStatus.t).

Lemma all_tasks_done_deliver v es w :
  all_tasks_done (self (deliver v es w)) = true
  <-> trials (self w)
      <= Z.of_nat (length (terminal_ids (statuses (self w)) (updates_of es))).
Proof.
  unfold all_tasks_done.
  rewrite deliver_statuses, deliver_trials, count_terminal.
  apply Z.geb_le.
Qed.

(** An update that moves a task from one terminal state to another leaves
    the set of terminal ids as it was. *)
Lemma terminal_ids_flap init us update :
  in_set terminal (last_known init us (update_id update)) ->
  TaskStatus.state update ∈ terminal ->
  terminal_ids init (us ++ [update]) ≡ₚ terminal_ids init us.
Proof.
  intros Hold Hnew.
  apply NoDup_Permutation; [apply terminal_ids_NoDup..|].
  intros id. rewrite !elem_of_terminal_ids, last_known_snoc.
  destruct (decide (update_id update = id)) as [<-|]; [|done].
  split; [done|]. intros _. by eexists.
Qed.

(** C1: whatever the state and whatever callbacks are delivered to it,
    [all_tasks_done] answers true exactly when the distinct task ids whose
    last-known status is terminal number at least [trials]; so it is false
    after every prefix of the run at which that number is still below
    [trials]; the ids are counted without repetition, and an update taking a
    task from one terminal state to another does not change the count. *)
Theorem all_tasks_done_iff v es w :
  (all_tasks_done (self (deliver v es w)) = true
   <-> trials (self w)
       <= Z.of_nat (length (terminal_ids (statuses (self w)) (updates_of es))))
  /\ (forall n,
        Z.of_nat (length (terminal_ids (statuses (self w))
                            (updates_of (take n es)))) < trials (self w) ->
        all_tasks_done (self (deliver v (take n es) w)) = false)
  /\ NoDup (terminal_ids (statuses (self w)) (updates_of es))
  /\ (forall id,
        id ∈ terminal_ids (statuses (self w)) (updates_of es)
        <-> in_set terminal (last_known (statuses (self w)) (updates_of es) id))
  /\ (forall update,
        in_set terminal
          (last_known (statuses (self w)) (updates_of es) (update_id update)) ->
        TaskStatus.state update ∈ terminal ->
        length (terminal_ids (statuses (self w))
                  (updates_of (es ++ [Update update])))
        = length (terminal_ids (statuses (self w)) (updates_of es))).
Proof.
  split; [apply all_tasks_done_deliver|].
  split.
  { intros n Hlt. apply not_true_is_false. rewrite all_tasks_done_deliver. lia. }
  split; [apply terminal_ids_NoDup|].
  split; [intros id; apply elem_of_terminal_ids|].
  intros update Hold Hnew. unfold updates_of. rewrite omap_app. simpl.
  by apply Permutation_length, terminal_ids_flap.
Qed.

(** C6: after any run from any state, the failure test of [cli] is true
    exactly when some task id's last-known status is one of [TASK_FAILED],
    [TASK_KILLED], [TASK_LOST]; only the latest update of an id counts. *)
Theorem any_failed_iff v es w :
  any_failed (self (deliver v es w)) = true
  <-> exists id,
        in_set failed (last_known (statuses (self w)) (updates_of es) id).
Proof.
  rewrite any_failed_spec, deliver_statuses.
  by setoid_rewrite record_all_lookup.
Qed.

Lemma recorded_same update (s : Scheduler) :
  statuses s !! update_id update = Some (TaskStatus.state update) ->
  recorded update s = s.
Proof.
  intros H. unfold recorded, set_statuses. rewrite insert_id by done.
  by destruct s.
Qed.

(** C8: a status update that repeats what is already recorded for its id
    leaves the dictionary and the per-state counts of the summary as they
    were (indeed the whole scheduler object), under any strategy. *)
Theorem statusUpdate_idempotent v update w :
  statuses (self w) !! update_id update = Some (TaskStatus.state update) ->
  statuses (self (statusUpdate v update w).1) = statuses (self w)
  /\ task_status_summary (self (statusUpdate v update w).1)
     = task_status_summary (self w)
  /\ self (statusUpdate v update w).1 = self w.
Proof.
  intros H. rewrite statusUpdate_self. by rewrite recorded_same.
Qed.
End Completion.

(** ** Task ids *)

Section TaskIds.
Implicit Types (tok : string) (n k : nat) (s : Scheduler) (w : World)
  (v : Strategy) (es : list Event).

(** The printed suffix reads back as the number printed. *)
Lemma parse_fmt02d n : parse_nat (fmt02d n) = Some n.
Proof.
  unfold parse_nat, fmt02d.
  destruct (Decimal.nb_digits (Nat.to_uint n) <? 2)%nat;
    rewrite NilEmpty.usu; simpl; f_equal.
  - change (Nat.of_uint (Decimal.D0 (Nat.to_uint n)))
      with (Nat.of_uint (Nat.to_uint n)).
    apply DecimalNat.Unsigned.of_to.
  - apply DecimalNat.Unsigned.of_to.
Qed.

Lemma fmt02d_inj n k : fmt02d n = fmt02d k -> n = k.
Proof.
  intros H. apply (f_equal parse_nat) in H.
  rewrite !parse_fmt02d in H. by injection H.
Qed.

Lemma task_id_at_inj tok n k : task_id_at tok n = task_id_at tok k -> n = k.
Proof.
  unfold task_id_at, short_id_at. intros H.
  apply fmt02d_inj. by repeat apply String.app_inj in H.
Qed.

Lemma task_ids_NoDup tok (l : list nat) :
  NoDup l -> NoDup (task_id_at tok <$> l).
Proof.
  apply NoDup_fmap_2. intros n k. apply task_id_at_inj.
Qed.

Lemma evolves_loggers s s' :
  evolves s s' ->
  (forall id, is_Some (loggers s !! id) -> is_Some (loggers s' !! id))
  /\ (forall k, (length (tasks s) <= k < length (tasks s'))%nat ->
        is_Some (loggers s' !! task_id_at (token s) k)).
Proof.
  induction 1 as [|s s' task Hev [IHm IHn] Hlt Hid|s s' update _ IH]; auto.
  { split; [done|]. intros k. lia. }
  assert (Hmono : forall id,
             is_Some (loggers s' !! id) ->
             is_Some (loggers (launched task s') !! id)).
  { intros id Hsome. unfold launched, registered_id. simpl.
    rewrite lookup_insert. by case_decide. }
  split; [auto|].
  intros k [Hlo Hhi]. unfold launched in Hhi. simpl in Hhi.
  rewrite length_app in Hhi. simpl in Hhi.
  destruct (decide (k = length (tasks s'))) as [->|Hne].
  - unfold launched, registered_id. simpl.
    rewrite (proj1 (evolves_fixed _ _ Hev)), lookup_insert_eq. by eexists.
  - apply Hmono, IHn. lia.
Qed.

End TaskIds.

(** ** Stopping the driver *)

Section Stopping.
Implicit Types (us : list TaskStatus.t) (w : World) (v : Strategy)
  (update : TaskStatus.t) (tr : list Effect).

Lemma stop_calls_app tr1 tr2 :
  stop_calls (tr1 ++ tr2) = (stop_calls tr1 + stop_calls tr2)%nat.
Proof. unfold stop_calls. by rewrite filter_app, length_app. Qed.

Lemma summary_lines_app tr1 tr2 :
  summary_lines (tr1 ++ tr2) = (summary_lines tr1 + summary_lines tr2)%nat.
Proof. unfold summary_lines. by rewrite filter_app, length_app. Qed.

Lemma reaction_quiet v update :
  stop_calls (reaction v update) = 0%nat
  /\ summary_lines (reaction v update) = 0%nat.
Proof. destruct v; simpl; try done. by case_decide. Qed.

(** One update for an id that has a per-task logger: one more [stop] and one
    more summary record if the scheduler is complete afterwards, none
    otherwise. *)
Lemma statusUpdate_stops v update w logger :
  loggers (self w) !! update_id update = Some logger -> logger <> log ->
  let w' := (statusUpdate v update w).1 in
  let hit := if all_tasks_done (self w') then 1%nat else 0%nat in
  stop_calls (out w') = (stop_calls (out w) + hit)%nat
  /\ summary_lines (out w') = (summary_lines (out w) + hit)%nat.
Proof.
  intros Hlog Hne. cbv zeta. rewrite statusUpdate_eq, Hlog.
  cbn [fst out self].
  rewrite !stop_calls_app, !summary_lines_app.
  destruct (reaction_quiet v update) as [-> ->].
  assert (Hq : summary_lines [Log logger INFO (Text (present_status update))]
               = 0%nat).
  { unfold summary_lines. rewrite filter_cons_False; [done|]. simpl.
    rewrite bool_decide_eq_false_2; done. }
  rewrite Hq.
  destruct (all_tasks_done (recorded update (self w))); simpl.
  - unfold stop_calls, summary_lines. simpl. split; reflexivity.
  - split; reflexivity.
Qed.

Lemma deliver_updates_loggers v us w :
  loggers (self (deliver v (Update <$> us) w)) = loggers (self w).
Proof.
  revert w. induction us as [|u us IH]; intros w; simpl; [done|].
  rewrite IH. simpl. by rewrite statusUpdate_self.
Qed.

Lemma filter_ext_elem {A} (P Q : A -> Prop)
    `{forall x, Decision (P x)} `{forall x, Decision (Q x)} (l : list A) :
  (forall x, x ∈ l -> P x <-> Q x) -> filter P l = filter Q l.
Proof.
  induction l as [|x l IH]; intros Hext; [done|].
  rewrite !filter_cons.
  assert (HPQ : P x <-> Q x) by (apply Hext; left).
  rewrite IH by (intros y Hy; apply Hext; by right).
  destruct (decide (P x)), (decide (Q x)); tauto || done.
Qed.

(** C2 (as the code has it): the scheduler keeps no record of having
    stopped.  Over status updates for tasks that have their per-task logger,
    [stop] is called, and a summary record logged, once after every update
    that leaves [all_tasks_done] true: the first time when completion is
    first reached, and again after each later update, duplicates
    included. *)
Theorem stop_after_each_complete_update v us w :
  (forall u, u ∈ us ->
     exists logger,
       loggers (self w) !! update_id u = Some logger /\ logger <> log) ->
  stop_calls (out (deliver v (Update <$> us) w))
  = (stop_calls (out w)
     + length (filter
                 (fun n =>
                    all_tasks_done
                      (self (deliver v (Update <$> take n us) w)) = true)
                 (seq 1 (length us))))%nat
  /\ summary_lines (out (deliver v (Update <$> us) w))
     = (summary_lines (out w)
        + length (filter
                    (fun n =>
                       all_tasks_done
                         (self (deliver v (Update <$> take n us) w)) = true)
                    (seq 1 (length us))))%nat.
Proof.
  induction us as [|u us IH] using rev_ind; intros Hknown.
  { simpl. by rewrite !Nat.add_0_r. }
  destruct IH as [IHs IHl].
  { intros u' Hu'. apply Hknown, elem_of_app. by left. }
  destruct (Hknown u) as (logger & Hlog & Hne).
  { apply elem_of_app. right. by left. }
  rewrite fmap_app, deliver_app. simpl.
  set (w1 := deliver v (Update <$> us) w) in *.
  assert (Hlog1 : loggers (self w1) !! update_id u = Some logger).
  { unfold w1. by rewrite deliver_updates_loggers. }
  destruct (statusUpdate_stops v u w1 logger Hlog1 Hne) as [Hs Hl].
  simpl in Hs, Hl. rewrite Hs, Hl, IHs, IHl.
  rewrite length_app. simpl. rewrite Nat.add_1_r, seq_S, filter_app, length_app.
  assert (Hpre :
    filter (fun n => all_tasks_done
                       (self (deliver v (Update <$> take n (us ++ [u])) w)) = true)
      (seq 1 (length us))
    = filter (fun n => all_tasks_done
                         (self (deliver v (Update <$> take n us) w)) = true)
        (seq 1 (length us))).
  { apply filter_ext_elem. intros n Hn. apply elem_of_seq in Hn.
    by rewrite take_app_le by lia. }
  rewrite Hpre. clear Hpre.
  assert (Hlast :
    deliver v (Update <$> take (1 + length us) (us ++ [u])) w
    = (statusUpdate v u w1).1).
  { rewrite take_ge by (rewrite length_app; simpl; lia).
    rewrite fmap_app, deliver_app. done. }
  rewrite filter_cons, filter_nil, Hlast.
  destruct (all_tasks_done (self (statusUpdate v u w1).1)).
  - rewrite decide_True by done. simpl. lia.
  - rewrite decide_False by done. simpl. lia.
Qed.
End Stopping.

(** ** Unknown tasks, capacity and the exit code *)

Section Guards.
Implicit Types (w : World) (v : Strategy) (update : TaskStatus.t)
  (es : list Event) (offers : list Offer.t) (s : Scheduler).

Lemma start_consistent tok n : consistent (self (start tok n)).
Proof.
  intros id. simpl. rewrite lookup_empty. split.
  - by intros [? [=]].
  - unfold launched_ids. simpl. by intros ?%elem_of_nil.
Qed.

Lemma callback_consistent v e w :
  consistent (self w) -> consistent (self (callback v e w).1).
Proof. apply evolves_consistent, callback_evolves. Qed.

(** A callback that returns leaves only launched tasks with a status. *)
Lemma callback_statuses_known v e w :
  consistent (self w) -> statuses_known (self w) ->
  (callback v e w).2 = inr tt ->
  statuses_known (self (callback v e w).1).
Proof.
  intros Hc Hk Hret. destruct e as [offers|update]; simpl in *.
  - intros id. rewrite resourceOffers_statuses. intros Hid%Hk.
    destruct (evolves_tasks _ _ (resourceOffers_evolves v offers w))
      as (n & _ & ->).
    apply elem_of_app. by left.
  - rewrite statusUpdate_eq in *.
    destruct (loggers (self w) !! update_id update) as [logger|] eqn:Hlog;
      [|done].
    intros id. simpl. rewrite lookup_insert. case_decide as Hid.
    + intros _. subst id. apply Hc. by eexists.
    + apply Hk.
Qed.

(** C3 (as the code has it): a status update for an id that was never
    launched is recorded all the same, after which the logger lookup raises
    [KeyError]; nothing is logged and nothing in the scheduler catches the
    exception, so the id ends up among the keys of [statuses].  A callback
    that returns keeps the keys of [statuses] among the launched ids. *)
Theorem statusUpdate_unknown v update w :
  consistent (self w) ->
  update_id update ∉ launched_ids (self w) ->
  statusUpdate v update w
  = ({| self := recorded update (self w); out := out w |},
     inl (KeyError (update_id update)))
  /\ statuses (recorded update (self w)) !! update_id update
     = Some (TaskStatus.state update)
  /\ ~ statuses_known (recorded update (self w))
  /\ (forall e w0,
        consistent (self w0) -> statuses_known (self w0) ->
        (callback v e w0).2 = inr tt ->
        consistent (self (callback v e w0).1)
        /\ statuses_known (self (callback v e w0).1)).
Proof.
  intros Hc Hnew.
  assert (Hlog : loggers (self w) !! update_id update = None).
  { apply eq_None_not_Some. by rewrite (Hc _). }
  assert (Hrec : statuses (recorded update (self w)) !! update_id update
                 = Some (TaskStatus.state update)).
  { unfold recorded. simpl. apply lookup_insert_eq. }
  split; [by rewrite statusUpdate_eq, Hlog|].
  split; [done|]. split.
  - intros Hk. apply Hnew. apply (Hk (update_id update)). by eexists.
  - intros e w0 Hc0 Hk0 Hret. split.
    + by apply callback_consistent.
    + by apply callback_statuses_known.
Qed.

(** C4 (as the code has it): from a state with no more tasks than [trials]
    (a new scheduler with [trials] >= 0 is one), no run ever holds more tasks
    than [trials]; an offer batch that arrives at capacity changes neither
    the object nor the trace, so nothing is launched, and no error is raised
    on account of the capacity: the loop just stops at its capacity test.
    [PGScheduler] and [ExecutorScheduler] then return; [SleepScheduler],
    which computes its delay [int(float(sleep) / trials)] before the loop,
    returns when that computation succeeds and raises its exception when it
    fails: [ZeroDivisionError] for a zero [trials] and for no other.  With
    [sleep] and [trials] below 2^53 in magnitude the computation fails for a
    zero [trials] only, and the delay is the integer quotient truncated
    towards zero. *)
Theorem tasks_within_trials v es w :
  Z.of_nat (length (tasks (self w))) <= trials (self w) ->
  Z.of_nat (length (tasks (self (deliver v es w)))) <= trials (self w)
  /\ (forall offers,
        let w' := deliver v es w in
        Z.of_nat (length (tasks (self w'))) = trials (self w') ->
        resourceOffers v offers w'
        = (w', match v with
               | SleepScheduler sleep _ _ =>
                   match float_delay sleep (trials (self w')) with
                   | inl e => inl e
                   | inr _ => inr tt
                   end
               | _ => inr tt
               end))
  /\ (forall sleep n,
        (float_delay sleep n = inl ZeroDivisionError -> n = 0)
        /\ (Z.abs sleep < 2 ^ 53 ->
            float_delay sleep 0 = inl ZeroDivisionError
            /\ (Z.abs n < 2 ^ 53 -> n <> 0 ->
                float_delay sleep n = inr (Z.quot sleep n)))).
Proof.
  intros Hcap. split; [|split].
  - rewrite <- (deliver_trials v es w).
    by apply (evolves_capacity _ _ (deliver_evolves v es w)).
  - intros offers w' Hfull. apply resourceOffers_full. lia.
  - intros sleep n. split; [apply float_delay_zero|].
    intros Hs. split.
    + destruct (float_of_int_small sleep Hs) as [x Hx].
      by apply (float_delay_by_zero sleep x).
    + intros Hn H0. by apply float_delay_exact.
Qed.

(** C5: the exit code [cli] computes from the driver's result and the
    scheduler: 2 when the driver did not end in [DRIVER_STOPPED]; after a
    normal stop, 1 when some task's last-known status is a failure state,
    and 0 when all trials are terminal and none is in a failure state. *)
Theorem cli_exit_code code w :
  (code <> DRIVER_STOPPED -> (cli_exit code w).2 = inr 2)
  /\ (code = DRIVER_STOPPED ->
      (exists id, in_set failed (statuses (self w) !! id)) ->
      (cli_exit code w).2 = inr 1)
  /\ (code = DRIVER_STOPPED ->
      all_tasks_done (self w) = true ->
      (forall id, ~ in_set failed (statuses (self w) !! id)) ->
      (cli_exit code w).2 = inr 0)
  /\ ((cli_exit code w).2 = inr 0
      <-> code = DRIVER_STOPPED
          /\ forall id, ~ in_set failed (statuses (self w) !! id)).
Proof.
  unfold cli_exit, bind, emit, get_self, ret. simpl.
  destruct (decide (code <> DRIVER_STOPPED)) as [Hne|Heq%dec_stable]; simpl.
  - repeat split; try done. by intros [? _].
  - destruct (any_failed (self w)) eqn:Hf; simpl.
    + apply any_failed_spec in Hf. repeat split; try done.
      * intros _ _ Hno. destruct Hf as [id Hid]. by destruct (Hno id).
      * intros [_ Hno]. destruct Hf as [id Hid]. by destruct (Hno id).
    + assert (Hno : forall id, ~ in_set failed (statuses (self w) !! id)).
      { intros id Hid. apply not_true_iff_false in Hf. apply Hf.
        apply any_failed_spec. by exists id. }
      repeat split; try done.
      intros _ [id Hid]. by destruct (Hno id).
Qed.
End Guards.

(** ** The statements at concrete runs *)

Lemma one_trial_launched : launched_ids (self one_trial) = [task00].
Proof. vm_compute. reflexivity. Qed.

Lemma one_trial_consistent : consistent (self one_trial).
Proof.
  apply (evolves_consistent _ _ (deliver_evolves _ _ _)), start_consistent.
Qed.

(** The scenario of three trials: updates Finished, Failed, Running and then
    Finished for the third task.  Not complete after the second update,
    complete after the fourth; a failure is seen from the second update on;
    the final summary counts two finished tasks and one failed. *)
Example scenario_three_trials :
  let u1 := Update (status_of task00 TASK_FINISHED) in
  let u2 := Update (status_of task01 TASK_FAILED) in
  let u3 := Update (status_of task02 TASK_RUNNING) in
  let u4 := Update (status_of task02 TASK_FINISHED) in
  let after es := self (deliver sleep_strategy es three_trials) in
  launched_ids (self three_trials) = [task00; task01; task02]
  /\ all_tasks_done (after [u1; u2]) = false
  /\ all_tasks_done (after [u1; u2; u3]) = false
  /\ all_tasks_done (after [u1; u2; u3; u4]) = true
  /\ any_failed (after [u1]) = false
  /\ any_failed (after [u1; u2]) = true
  /\ any_failed (after [u1; u2; u3; u4]) = true
  /\ task_status_summary (after [u1; u2; u3; u4])
     = [("TASK_FINISHED", 2%nat); ("TASK_FAILED", 1%nat)]
  /\ stop_calls (out (deliver sleep_strategy [u1; u2; u3] three_trials))
     = 0%nat
  /\ stop_calls (out (deliver sleep_strategy [u1; u2; u3; u4] three_trials))
     = 1%nat.
Proof. vm_compute. repeat split. Qed.

(** C2, the claim as stated fails: one trial, its task reported finished
    twice.  The first update completes the run and stops the driver; the
    duplicate stops it again and logs the summary again. *)
Lemma stop_called_twice :
  all_tasks_done (self one_trial) = false
  /\ all_tasks_done
       (self (deliver sleep_strategy
                [Update (status_of task00 TASK_FINISHED)] one_trial)) = true
  /\ stop_calls
       (out (deliver sleep_strategy
               [Update (status_of task00 TASK_FINISHED)] one_trial)) = 1%nat
  /\ stop_calls
       (out (deliver sleep_strategy
               [Update (status_of task00 TASK_FINISHED);
                Update (status_of task00 TASK_FINISHED)] one_trial)) = 2%nat
  /\ summary_lines
       (out (deliver sleep_strategy
               [Update (status_of task00 TASK_FINISHED);
                Update (status_of task00 TASK_FINISHED)] one_trial)) = 2%nat.
Proof. vm_compute. repeat split. Qed.

Lemma stop_after_each_complete_update_witness :
  (forall u,
     u ∈ [status_of task00 TASK_FINISHED; status_of task00 TASK_FINISHED] ->
     exists logger,
       loggers (self one_trial) !! update_id u = Some logger /\ logger <> log)
  /\ stop_calls
       (out (deliver sleep_strategy
               (Update <$> [status_of task00 TASK_FINISHED;
                            status_of task00 TASK_FINISHED]) one_trial))
     = 2%nat.
Proof.
  assert (H : forall u,
             u ∈ [status_of task00 TASK_FINISHED; status_of task00 TASK_FINISHED] ->
             exists logger,
               loggers (self one_trial) !! update_id u = Some logger
               /\ logger <> log).
  { intros u Hu. exists task00.
    apply elem_of_cons in Hu as [->|Hu];
      [|apply list_elem_of_singleton in Hu as ->];
      (split; [vm_compute; reflexivity|discriminate]). }
  split; [exact H|].
  destruct (stop_after_each_complete_update sleep_strategy _ one_trial H)
    as [-> _].
  vm_compute. reflexivity.
Defined.

(** C3, the claim as stated fails: an update for an id that was never
    launched raises [KeyError], and the dictionary has gained the id. *)
Lemma unknown_update_is_recorded :
  launched_ids (self one_trial) = [task00]
  /\ statuses (self one_trial) !! "ghost" = None
  /\ (statusUpdate sleep_strategy (status_of "ghost" TASK_FINISHED)
        one_trial).2 = inl (KeyError "ghost")
  /\ statuses
       (self (statusUpdate sleep_strategy (status_of "ghost" TASK_FINISHED)
                one_trial).1) !! "ghost" = Some TASK_FINISHED.
Proof. vm_compute. repeat split. Qed.

Lemma statusUpdate_unknown_witness :
  consistent (self one_trial)
  /\ ("ghost" ∉ launched_ids (self one_trial))
  /\ (statusUpdate sleep_strategy (status_of "ghost" TASK_FINISHED)
        one_trial).2 = inl (KeyError "ghost").
Proof.
  assert (Hnew : update_id (status_of "ghost" TASK_FINISHED)
                 ∉ launched_ids (self one_trial)).
  { rewrite one_trial_launched. intros H%list_elem_of_singleton. discriminate. }
  split; [apply one_trial_consistent|]. split; [exact Hnew|].
  destruct (statusUpdate_unknown sleep_strategy _ one_trial
              one_trial_consistent Hnew) as [-> _].
  reflexivity.
Defined.

(** C4, the claim as stated fails: at capacity a further offer raises
    nothing, the call returns normally with the world untouched; and with a
    negative [trials] the scheduler holds more tasks than [trials] from the
    start. *)
Lemma full_batch_returns_normally :
  Z.of_nat (length (tasks (self one_trial))) = trials (self one_trial)
  /\ resourceOffers sleep_strategy [offer2] one_trial = (one_trial, inr tt)
  /\ trials (self (deliver sleep_strategy [Offers [offer1]]
                     (start "0badcafe" (-1))))
     < Z.of_nat (length (tasks (self (deliver sleep_strategy [Offers [offer1]]
                                        (start "0badcafe" (-1)))))).
Proof. vm_compute. repeat split. Qed.

(** C4 at a scheduler of one trial, and at one of no trial: there the
    sleep strategy raises on its division, whatever is offered. *)
Lemma tasks_within_trials_witness :
  Z.of_nat (length (tasks (self (start "0badcafe" 1))))
    <= trials (self (start "0badcafe" 1))
  /\ Z.of_nat (length (tasks (self (deliver sleep_strategy
                                      [Offers [offer1; offer2]]
                                      (start "0badcafe" 1)))))
     <= trials (self (start "0badcafe" 1))
  /\ resourceOffers sleep_strategy [offer2] one_trial = (one_trial, inr tt)
  /\ resourceOffers sleep_strategy [offer1] (start "0badcafe" 0)
     = (start "0badcafe" 0, inl ZeroDivisionError).
Proof.
  assert (H : Z.of_nat (length (tasks (self (start "0badcafe" 1))))
              <= trials (self (start "0badcafe" 1))) by (simpl; lia).
  assert (H0 : Z.of_nat (length (tasks (self (start "0badcafe" 0))))
               <= trials (self (start "0badcafe" 0))) by (simpl; lia).
  split; [exact H|]. split; [|split].
  - exact (proj1 (tasks_within_trials sleep_strategy [Offers [offer1; offer2]]
                    (start "0badcafe" 1) H)).
  - exact (proj1 (proj2 (tasks_within_trials sleep_strategy [Offers [offer1]]
                           (start "0badcafe" 1) H))
             [offer2] eq_refl).
  - exact (proj1 (proj2 (tasks_within_trials sleep_strategy []
                           (start "0badcafe" 0) H0))
             [offer1] eq_refl).
Defined.

Lemma statusUpdate_idempotent_witness :
  statuses (self (deliver sleep_strategy
                    [Update (status_of task00 TASK_RUNNING)] one_trial))
    !! update_id (status_of task00 TASK_RUNNING)
  = Some (TaskStatus.state (status_of task00 TASK_RUNNING))
  /\ task_status_summary
       (self (statusUpdate sleep_strategy (status_of task00 TASK_RUNNING)
                (deliver sleep_strategy
                   [Update (status_of task00 TASK_RUNNING)] one_trial)).1)
     = task_status_summary
         (self (deliver sleep_strategy
                  [Update (status_of task00 TASK_RUNNING)] one_trial)).
Proof.
  assert (H : statuses (self (deliver sleep_strategy
                                [Update (status_of task00 TASK_RUNNING)]
                                one_trial))
                !! update_id (status_of task00 TASK_RUNNING)
              = Some (TaskStatus.state (status_of task00 TASK_RUNNING)))
    by (vm_compute; reflexivity).
  split; [exact H|].
  exact (proj1 (proj2 (statusUpdate_idempotent sleep_strategy _ _ H))).
Defined.

(** * Further properties *)

(** ** The trace of an offer batch *)

Section OfferTrace.
Implicit Types (w : World) (s : Scheduler) (v : Strategy)
  (offers : list Offer.t) (tr : list Effect).

Lemma launch_calls_app tr1 tr2 :
  launch_calls (tr1 ++ tr2) = (launch_calls tr1 ++ launch_calls tr2)%list.
Proof. apply omap_app. Qed.

Lemma kill_calls_app tr1 tr2 :
  kill_calls (tr1 ++ tr2) = (kill_calls tr1 ++ kill_calls tr2)%list.
Proof. apply omap_app. Qed.

Lemma launches_on_plain (mk : Offer.t -> string -> TaskInfo.t) :
  (forall offer tid,
     SlaveID.value (TaskInfo.slave_id (mk offer tid))
     = SlaveID.value (Offer.slave_id offer)) ->
  launches_on
    (fun offer => let* tid := next_task_id in launch offer tid (mk offer tid)).
Proof.
  intros Hsid offer w. right. rewrite (next_then_launch (mk offer)).
  eexists _, _. split; [apply Hsid|]. by repeat split.
Qed.

Lemma launches_on_paced secs (mk : Offer.t -> string -> TaskInfo.t) :
  (forall offer tid,
     SlaveID.value (TaskInfo.slave_id (mk offer tid))
     = SlaveID.value (Offer.slave_id offer)) ->
  launches_on
    (fun offer =>
       time_sleep secs;;
       let* tid := next_task_id in launch offer tid (mk offer tid)).
Proof.
  intros Hsid offer w.
  destruct ((0 <=? secs) && (secs <=? sleep_limit)) eqn:Hs; cycle 1.
  - left. eexists. unfold bind. by rewrite time_sleep_eq, Hs.
  - right.
    exists (mk offer (task_id_at (token (self w)) (length (tasks (self w))))).
    eexists. split; [apply Hsid|].
    split; [|split; [|split]]; cycle 3.
    { unfold bind at 1. rewrite time_sleep_eq, Hs. cbv beta iota.
      rewrite (next_then_launch (mk offer)). simpl.
      rewrite <- app_assoc. reflexivity. }
    all: done.
Qed.

(** Every strategy's loop body is of that kind. *)
Lemma resourceOffers_shape_on v offers w :
  exists body,
    launches_on body
    /\ (resourceOffers v offers w = for_offers body offers w
        \/ exists e, resourceOffers v offers w = (w, inl e)).
Proof.
  destruct v as [c uris container|sleep uris container|container]; simpl.
  - eexists. split; [|left; reflexivity].
    by apply (launches_on_plain
                (fun offer tid =>
                   task_with_executor tid (Offer.slave_id offer) Args0)).
  - rewrite SleepScheduler_resourceOffers_eq.
    destruct (float_delay sleep (trials (self w))) as [e|delay].
    + exists (fun _ => raise e). split; [|right; by eexists].
      intros offer w'. left. by eexists.
    + eexists. split; [|left; reflexivity].
      by apply (launches_on_paced _
                  (fun offer tid =>
                     task_with_command tid (Offer.slave_id offer)
                       (Args3 ("date -u +%T ; sleep " ++ str sleep
                               ++ " ; date -u +%T") uris container))).
  - eexists. split; [|left; reflexivity].
    by apply (launches_on_paced _
                (fun offer tid =>
                   task_with_daemon tid (Offer.slave_id offer) container)).
Qed.

Lemma for_offers_cons body offer rest w :
  for_offers body (offer :: rest) w
  = if Z.of_nat (length (tasks (self w))) >=? trials (self w)
    then (w, inr tt)
    else match body offer w with
         | (w', inl e) => (w', inl e)
         | (w', inr _) => for_offers body rest w'
         end.
Proof.
  simpl. unfold bind at 1, get_self.
  by destruct (Z.of_nat (length (tasks (self w))) >=? trials (self w)).
Qed.

(** What the loop leaves behind, offer by offer. *)
Lemma for_offers_trace body offers w :
  launches_on body ->
  exists new,
    tasks (self (for_offers body offers w).1) = (tasks (self w) ++ new)%list
    /\ trials (self (for_offers body offers w).1) = trials (self w)
    /\ statuses (self (for_offers body offers w).1) = statuses (self w)
    /\ launch_calls (out (for_offers body offers w).1)
       = (launch_calls (out w)
            ++ zip_with (fun offer task => (Offer.id offer, [task]))
                 offers new)%list
    /\ Forall2 (fun offer task =>
                  SlaveID.value (TaskInfo.slave_id task)
                  = SlaveID.value (Offer.slave_id offer))
         (take (length new) offers) new
    /\ stop_calls (out (for_offers body offers w).1) = stop_calls (out w)
    /\ kill_calls (out (for_offers body offers w).1) = kill_calls (out w)
    /\ ((for_offers body offers w).2 = inr tt ->
        length new = (length offers `min` remaining (self w))%nat).
Proof.
  intros Hbody. revert w.
  induction offers as [|offer rest IH]; intros w.
  { exists []. simpl. rewrite !app_nil_r. repeat split; done || constructor. }
  rewrite for_offers_cons.
  destruct (Z.of_nat (length (tasks (self w))) >=? trials (self w)) eqn:Hcap.
  { exists [].
    assert (Hrem : remaining (self w) = 0%nat).
    { apply Z.geb_le in Hcap. unfold remaining. lia. }
    rewrite Hrem, Nat.min_0_r. simpl. rewrite !app_nil_r.
    repeat split; done || constructor. }
  rewrite Z.geb_leb in Hcap. apply Z.leb_gt in Hcap.
  destruct (Hbody offer w)
    as [[e ->]|(task & effs & Hsid & Hlc & Hsc & Hkc & ->)].
  { exists []. simpl. rewrite !app_nil_r. repeat split; done || constructor. }
  set (w1 := {| self := launched task (self w); out := out w ++ effs |}).
  destruct (IH w1) as (new & Ht & Htr & Hst & Hl & Hs2 & Hstop & Hkill & Hn).
  assert (Hcount : (for_offers body rest w1).2 = inr tt ->
                   length (task :: new)
                   = (length (offer :: rest) `min` remaining (self w))%nat).
  { intros Hret. cbn [length]. rewrite (Hn Hret).
    assert (Hrem : remaining (self w) = S (remaining (self w1))).
    { unfold remaining, w1. simpl. rewrite length_app. simpl. lia. }
    rewrite Hrem. by rewrite <- Nat.succ_min_distr. }
  clear Hn.
  exists (task :: new). rewrite Ht, Htr, Hst, Hl, Hstop, Hkill.
  unfold w1. simpl.
  rewrite launch_calls_app, kill_calls_app, stop_calls_app, Hlc, Hsc, Hkc.
  rewrite <- !app_assoc, app_nil_r, Nat.add_0_r. simpl.
  repeat split; try done.
  by constructor.
Qed.
End OfferTrace.

(** ** The calls of [next_task_id] *)

Section Calls.
Implicit Types (w : World) (s : Scheduler) (v : Strategy)
  (offers : list Offer.t) (es : list Event).

Lemma for_offers_ext (body1 body2 : Offer.t -> M unit) offers w :
  (forall offer w, body1 offer w = body2 offer w) ->
  for_offers body1 offers w = for_offers body2 offers w.
Proof.
  intros Hext. revert w. induction offers as [|offer rest IH]; intros w; [done|].
  rewrite !for_offers_cons, Hext.
  destruct (Z.of_nat (length (tasks (self w))) >=? trials (self w)); [done|].
  by destruct (body2 offer w) as [w' [e|[]]].
Qed.

(** Each strategy's [resourceOffers] is the loop over [loop_body], after the
    delay has been computed. *)
Lemma resourceOffers_loop v offers w :
  resourceOffers v offers w
  = match loop_delay v (self w) with
    | inl e => (w, inl e)
    | inr delay => for_offers (loop_body v delay) offers w
    end.
Proof.
  destruct v as [c uris container|sleep uris container|container]; simpl.
  - unfold ExecutorScheduler_resourceOffers. by apply for_offers_ext.
  - rewrite SleepScheduler_resourceOffers_eq.
    by destruct (float_delay sleep (trials (self w))).
  - done.
Qed.

Lemma pause_cases v delay w :
  (exists e, pause v delay w = (w, inl e))
  \/ (exists effs,
        pause v delay w
        = ({| self := self w; out := out w ++ effs |}, inr tt)).
Proof.
  destruct v; simpl.
  - right. exists []. rewrite app_nil_r. by destruct w.
  - rewrite time_sleep_eq.
    destruct ((0 <=? delay) && (delay <=? sleep_limit));
      [right|left]; by eexists.
  - rewrite time_sleep_eq.
    destruct ((0 <=? 2) && (2 <=? sleep_limit)); [right|left]; by eexists.
Qed.

(** The task a loop body launches carries the id it was given. *)
Lemma task_for_id v offer tid :
  TaskID.value (TaskInfo.task_id (task_for v offer tid)) = tid.
Proof. by destruct v. Qed.

Lemma length_launched task s :
  length (tasks (launched task s)) = S (length (tasks s)).
Proof. unfold launched. simpl. rewrite length_app. simpl. lia. Qed.

Lemma for_offers_grows body offers w :
  launches body ->
  token (self (for_offers body offers w).1) = token (self w)
  /\ (length (tasks (self w))
      <= length (tasks (self (for_offers body offers w).1)))%nat.
Proof.
  intros Hbody.
  pose proof (for_offers_evolves body offers w Hbody) as Hev.
  split; [apply (evolves_fixed _ _ Hev)|].
  destruct (evolves_tasks _ _ Hev) as (n & -> & _). lia.
Qed.

Lemma loop_body_launches v delay : launches (loop_body v delay).
Proof.
  intros offer w. unfold loop_body.
  destruct (pause_cases v delay w) as [[e He]|[effs He]].
  - left. exists e. unfold bind. by rewrite He.
  - right. eexists _, _. split; cycle 1.
    { unfold bind at 1. rewrite He. cbv beta iota.
      rewrite (next_then_launch (task_for v offer)). simpl.
      rewrite <- app_assoc. reflexivity. }
    apply task_for_id.
Qed.

Lemma for_offers_calls_cons v delay offer rest w :
  for_offers_calls v delay (offer :: rest) w
  = if Z.of_nat (length (tasks (self w))) >=? trials (self w)
    then ((w, inr tt), [])
    else
      match pause v delay w with
      | (w1, inl e) => ((w1, inl e), [])
      | (w1, inr _) =>
          match next_task_id w1 with
          | (w2, inl e) => ((w2, inl e), [])
          | (w2, inr tid) =>
              let call := (length (tasks (self w1)), tid) in
              match launch offer tid (task_for v offer tid) w2 with
              | (w3, inl e) => ((w3, inl e), [call])
              | (w3, inr _) =>
                  let '(r, calls) := for_offers_calls v delay rest w3 in
                  (r, call :: calls)
              end
          end
      end.
Proof. reflexivity. Qed.

(** The recording loop is the loop: same world, same result; and the calls
    it records are made at consecutive task counts, each returning the id of
    its count. *)
Lemma for_offers_calls_spec v delay offers w :
  (for_offers_calls v delay offers w).1 = for_offers (loop_body v delay) offers w
  /\ (for_offers_calls v delay offers w).2
     = (fun k => (k, task_id_at (token (self w)) k))
         <$> seq (length (tasks (self w)))
               (length (tasks (self (for_offers (loop_body v delay)
                                       offers w).1))
                - length (tasks (self w))).
Proof.
  revert w. induction offers as [|offer rest IH]; intros w.
  { simpl. by rewrite Nat.sub_diag. }
  rewrite for_offers_calls_cons, for_offers_cons.
  destruct (Z.of_nat (length (tasks (self w))) >=? trials (self w)).
  { cbn [fst snd]. by rewrite Nat.sub_diag. }
  destruct (pause_cases v delay w) as [[e Hp]|[effs Hp]].
  { assert (Hb : loop_body v delay offer w = (w, inl e)).
    { unfold loop_body, bind. by rewrite Hp. }
    rewrite Hp, Hb. cbn [fst snd]. by rewrite Nat.sub_diag. }
  set (w1 := {| self := self w; out := out w ++ effs |}) in *.
  set (tid := task_id_at (token (self w)) (length (tasks (self w)))).
  pose proof (next_then_launch (task_for v offer) offer w1) as Hnl.
  cbv zeta in Hnl. cbn [self out w1] in Hnl. fold tid in Hnl.
  set (w3 := {| self := launched (task_for v offer tid) (self w);
                out := _ |}) in Hnl.
  assert (Hn : next_task_id w1
               = ({| self := registered_id (self w); out := out w1 |},
                  inr tid)) by reflexivity.
  assert (Hl : launch offer tid (task_for v offer tid)
                 {| self := registered_id (self w); out := out w1 |}
               = (w3, inr tt)).
  { unfold bind at 1 in Hnl. by rewrite Hn in Hnl. }
  assert (Hb : loop_body v delay offer w = (w3, inr tt)).
  { unfold loop_body. unfold bind at 1. by rewrite Hp. }
  rewrite Hp, Hn, Hl, Hb. cbv zeta.
  destruct (IH w3) as [IH1 IH2].
  destruct (for_offers_calls v delay rest w3) as [r calls].
  cbn [fst snd] in *. subst r calls. split; [done|].
  destruct (for_offers_grows (loop_body v delay) rest w3
              (loop_body_launches v delay)) as [_ Hle].
  change (self w3) with (launched (task_for v offer tid) (self w)) in *.
  rewrite length_launched in *.
  change (self w1) with (self w).
  replace (length (tasks (self (for_offers (loop_body v delay) rest w3).1))
           - length (tasks (self w)))%nat
    with (S (length (tasks (self (for_offers (loop_body v delay) rest w3).1))
             - S (length (tasks (self w)))))%nat by lia.
  rewrite <- cons_seq. rewrite fmap_cons. f_equal.
Qed.

Lemma resourceOffers_calls_spec v offers w :
  (resourceOffers_calls v offers w).1 = resourceOffers v offers w
  /\ (resourceOffers_calls v offers w).2
     = (fun k => (k, task_id_at (token (self w)) k))
         <$> seq (length (tasks (self w)))
               (length (tasks (self (resourceOffers v offers w).1))
                - length (tasks (self w))).
Proof.
  unfold resourceOffers_calls. rewrite resourceOffers_loop.
  destruct (loop_delay v (self w)) as [e|delay].
  - simpl. by rewrite Nat.sub_diag.
  - apply for_offers_calls_spec.
Qed.

Lemma calls_of_run_spec v es w :
  calls_of_run v es w
  = (fun k => (k, task_id_at (token (self w)) k))
      <$> seq (length (tasks (self w)))
            (length (tasks (self (deliver v es w)))
             - length (tasks (self w))).
Proof.
  revert w. induction es as [|[offers|update] es IH]; intros w; simpl.
  - by rewrite Nat.sub_diag.
  - rewrite IH, (proj2 (resourceOffers_calls_spec v offers w)).
    set (w1 := (resourceOffers v offers w).1).
    pose proof (resourceOffers_evolves v offers w) as Hev1.
    pose proof (deliver_evolves v es w1) as Hev2.
    fold w1 in Hev1.
    destruct (evolves_tasks _ _ Hev1) as (n1 & Hn1 & _).
    destruct (evolves_tasks _ _ Hev2) as (n2 & Hn2 & _).
    rewrite (proj1 (evolves_fixed _ _ Hev1)).
    rewrite Hn2, Hn1.
    replace (length (tasks (self w)) + n1 + n2 - length (tasks (self w)))%nat
      with (n1 + n2)%nat by lia.
    replace (length (tasks (self w)) + n1 - length (tasks (self w)))%nat
      with n1 by lia.
    replace (length (tasks (self w)) + n1 + n2
             - (length (tasks (self w)) + n1))%nat with n2 by lia.
    by rewrite seq_app, fmap_app.
  - rewrite IH. change (SleepScheduler_statusUpdate update w)
      with (statusUpdate v update w).
    by rewrite statusUpdate_self.
Qed.

(** C7: [next_task_id] returns the namespace tag, the run token and
    ["-task"] followed by the current task count printed with ["%02d"], a
    suffix that reads back as that count, and has registered the logger for
    that id when it returns.  The call itself leaves the count as it is; the
    loop that makes the calls appends, after each, the task built under the
    id returned.  So the calls of any run, as [calls_of_run] records them
    along the loops that make them, are made at the consecutive task counts
    from the initial one on, one call for each task appended: the ids they
    return have strictly increasing suffixes, are pairwise distinct, are the
    ids of the tasks appended, in order, and keep their loggers. *)
Theorem next_task_id_run v es w :
  next_task_id w
  = ({| self := registered_id (self w); out := out w |},
     inr (task_id_at (token (self w)) (length (tasks (self w)))))
  /\ loggers (registered_id (self w))
       !! task_id_at (token (self w)) (length (tasks (self w)))
     = Some (getChild log (short_id_at (token (self w))
                             (length (tasks (self w)))))
  /\ (forall tok n,
        task_id_at tok n = "medea-test." ++ tok ++ "-task" ++ fmt02d n
        /\ parse_nat (fmt02d n) = Some n)
  /\ (forall offers,
        (resourceOffers_calls v offers w).1 = resourceOffers v offers w)
  /\ calls_of_run v es w
     = (fun k => (k, task_id_at (token (self w)) k))
         <$> seq (length (tasks (self w)))
               (length (tasks (self (deliver v es w)))
                - length (tasks (self w)))
  /\ launched_ids (self (deliver v es w))
     = (launched_ids (self w) ++ (calls_of_run v es w).*2)%list
  /\ NoDup (calls_of_run v es w).*2
  /\ (forall c id,
        (c, id) ∈ calls_of_run v es w ->
        is_Some (loggers (self (deliver v es w)) !! id)).
Proof.
  split; [apply next_task_id_eq|].
  split; [apply registered_id_lookup|].
  split; [intros tok n; split; [done|apply parse_fmt02d]|].
  split; [intros offers; apply resourceOffers_calls_spec|].
  split; [apply calls_of_run_spec|].
  pose proof (deliver_evolves v es w) as Hev.
  destruct (evolves_tasks _ _ Hev) as (n & Hlen & Hids).
  assert (Hcalls : (calls_of_run v es w).*2
                   = task_id_at (token (self w))
                       <$> seq (length (tasks (self w))) n).
  { rewrite calls_of_run_spec, Hlen.
    replace (length (tasks (self w)) + n - length (tasks (self w)))%nat
      with n by lia.
    rewrite <- list_fmap_compose. done. }
  split; [by rewrite Hcalls|].
  split; [rewrite Hcalls; apply task_ids_NoDup, NoDup_seq|].
  intros c id Hin.
  assert (Hid : id ∈ (calls_of_run v es w).*2).
  { apply list_elem_of_fmap. by exists (c, id). }
  rewrite Hcalls in Hid. apply list_elem_of_fmap in Hid as (k & -> & Hk).
  apply elem_of_seq in Hk.
  apply (proj2 (evolves_loggers _ _ Hev)). lia.
Qed.
End Calls.

(** The calls of a run of three trials over two batches of two offers: three
    calls, at the counts 0, 1 and 2; the fourth offer finds the scheduler at
    capacity and no call is made for it. *)
Example calls_three_trials :
  calls_of_run sleep_strategy
    [Offers [offer1; offer2]; Offers [offer1; offer2]] (start "0badcafe" 3)
  = [(0%nat, task00); (1%nat, task01); (2%nat, task02)].
Proof. vm_compute. reflexivity. Qed.


Section OfferResults.
Implicit Types (w : World) (s : Scheduler) (v : Strategy)
  (offers : list Offer.t) (tr : list Effect).

(** X1: an offer batch consumes the offers in order, one task per offer: the
    tasks it appends are launched by one [launchTasks] call each, for the
    offer at the same position and with that single task, which is placed on
    the offer's slave; offers beyond the tasks appended get no call.  When
    the batch returns, the tasks appended number the smaller of the offers
    and the trials that remained. *)
Theorem resourceOffers_one_task_per_offer v offers w :
  exists new,
    tasks (self (resourceOffers v offers w).1) = (tasks (self w) ++ new)%list
    /\ launch_calls (out (resourceOffers v offers w).1)
       = (launch_calls (out w)
            ++ zip_with (fun offer task => (Offer.id offer, [task]))
                 offers new)%list
    /\ Forall2 (fun offer task =>
                  SlaveID.value (TaskInfo.slave_id task)
                  = SlaveID.value (Offer.slave_id offer))
         (take (length new) offers) new
    /\ ((resourceOffers v offers w).2 = inr tt ->
        length new = (length offers `min` remaining (self w))%nat).
Proof.
  destruct (resourceOffers_shape_on v offers w) as (body & Hbody & [-> | [e ->]]).
  - destruct (for_offers_trace body offers w Hbody)
      as (new & Ht & _ & _ & Hl & Hs & _ & _ & Hn).
    by exists new.
  - exists []. simpl. rewrite !app_nil_r.
    replace (zip_with _ offers []) with (@nil (OfferID.t * list TaskInfo.t))
      by (by destruct offers).
    rewrite app_nil_r. repeat split; done || constructor.
Qed.

(** X2: an offer batch never stops the driver, never kills a task and never
    touches the recorded statuses or [trials], whether it returns or raises;
    so a run made of offer batches only never calls [stop]. *)
Theorem resourceOffers_never_stops v offers (batches : list (list Offer.t)) w :
  stop_calls (out (resourceOffers v offers w).1) = stop_calls (out w)
  /\ kill_calls (out (resourceOffers v offers w).1) = kill_calls (out w)
  /\ statuses (self (resourceOffers v offers w).1) = statuses (self w)
  /\ trials (self (resourceOffers v offers w).1) = trials (self w)
  /\ stop_calls (out (deliver v (Offers <$> batches) w)) = stop_calls (out w).
Proof.
  assert (Hone : forall offers w,
             stop_calls (out (resourceOffers v offers w).1) = stop_calls (out w)
             /\ kill_calls (out (resourceOffers v offers w).1)
                = kill_calls (out w)).
  { clear. intros offers w.
    destruct (resourceOffers_shape_on v offers w) as (body & Hbody & [-> | [e ->]]);
      [|done].
    destruct (for_offers_trace body offers w Hbody)
      as (new & _ & _ & _ & _ & _ & Hstop & Hkill & _).
    done. }
  split; [apply Hone|]. split; [apply Hone|].
  split; [apply resourceOffers_statuses|].
  split; [apply evolves_fixed, resourceOffers_evolves|].
  revert w. induction batches as [|b batches IH]; intros w; simpl; [done|].
  rewrite IH. apply Hone.
Qed.

Lemma for_offers_returns body offers w :
  (forall offer w, exists w', body offer w = (w', inr tt)) ->
  (for_offers body offers w).2 = inr tt.
Proof.
  intros Hbody. revert w. induction offers as [|offer rest IH]; intros w; [done|].
  rewrite for_offers_cons.
  destruct (Z.of_nat (length (tasks (self w))) >=? trials (self w)); [done|].
  destruct (Hbody offer w) as [w' ->]. apply IH.
Qed.

Lemma paced_body_returns secs (mk : Offer.t -> string -> TaskInfo.t) :
  0 <= secs <= sleep_limit ->
  forall offer w,
    exists w',
      (time_sleep secs;;
       let* tid := next_task_id in launch offer tid (mk offer tid)) w
      = (w', inr tt).
Proof.
  intros Hs offer w. unfold bind at 1. rewrite (time_sleep_ok _ _ Hs).
  cbv beta iota.
  rewrite (next_then_launch (mk offer)). by eexists.
Qed.

Lemma pg_batch_returns container offers w :
  (resourceOffers (PGScheduler container) offers w).2 = inr tt.
Proof.
  apply for_offers_returns.
  apply (paced_body_returns 2
           (fun offer tid =>
              task_with_daemon tid (Offer.slave_id offer) container)).
  apply sleep_2_ok.
Qed.

Lemma executor_batch_returns c uris container offers w :
  (resourceOffers (ExecutorScheduler c uris container) offers w).2 = inr tt.
Proof.
  apply for_offers_returns. intros offer w'.
  rewrite (next_then_launch
             (fun tid => task_with_executor tid (Offer.slave_id offer) Args0)).
  by eexists.
Qed.

(** How a [SleepScheduler] batch ends: with the exception of its delay
    computation, if that fails; normally, when there is no offer to consume
    below capacity or the delay is a length [time.sleep] accepts; and
    otherwise with the exception of the first [time.sleep], nothing done. *)
Lemma sleep_batch_cases sleep uris container offers w :
  match float_delay sleep (trials (self w)) with
  | inl e =>
      resourceOffers (SleepScheduler sleep uris container) offers w
      = (w, inl e)
  | inr delay =>
      if decide (offers <> []
                 /\ Z.of_nat (length (tasks (self w))) < trials (self w)
                 /\ ~ 0 <= delay <= sleep_limit)
      then resourceOffers (SleepScheduler sleep uris container) offers w
           = time_sleep delay w
      else (resourceOffers (SleepScheduler sleep uris container) offers w).2
           = inr tt
  end.
Proof.
  simpl. rewrite SleepScheduler_resourceOffers_eq.
  destruct (float_delay sleep (trials (self w))) as [e|delay]; [done|].
  case_decide as Hc.
  - destruct Hc as (Hne & Hlt & Hbad).
    destruct offers as [|offer rest]; [done|].
    rewrite for_offers_cons.
    rewrite Z.geb_leb, (proj2 (Z.leb_gt _ _) Hlt).
    unfold bind at 1. rewrite time_sleep_eq.
    destruct ((0 <=? delay) && (delay <=? sleep_limit)) eqn:Hs; [|done].
    apply andb_prop in Hs as [H0 H1]. apply Z.leb_le in H0, H1. lia.
  - destruct offers as [|offer rest]; [done|].
    destruct (decide (Z.of_nat (length (tasks (self w))) < trials (self w)))
      as [Hlt|Hge].
    + apply for_offers_returns.
      apply (paced_body_returns _
               (fun offer tid =>
                  task_with_command tid (Offer.slave_id offer)
                    (Args3 ("date -u +%T ; sleep " ++ str sleep
                            ++ " ; date -u +%T") uris container))).
      destruct (decide (0 <= delay <= sleep_limit)); [done|].
      destruct Hc. by repeat split.
    + rewrite for_offers_full; [done|lia].
Qed.

Lemma sleep_batch_zero_division sleep uris container offers w :
  (resourceOffers (SleepScheduler sleep uris container) offers w).2
  = inl ZeroDivisionError ->
  trials (self w) = 0.
Proof.
  pose proof (sleep_batch_cases sleep uris container offers w) as Hcases.
  destruct (float_delay sleep (trials (self w))) as [e|delay] eqn:Hd.
  - rewrite Hcases. simpl. intros [= ->]. by apply float_delay_zero in Hd.
  - case_decide; [|by rewrite Hcases].
    rewrite Hcases, time_sleep_eq.
    destruct ((0 <=? delay) && (delay <=? sleep_limit)); [done|].
    simpl.
    destruct ((delay <? - timestamp_max) || (timestamp_max <? delay));
      [done|by destruct (delay <? 0)].
Qed.

(** X3: the exceptions of an offer batch.  [PGScheduler] and
    [ExecutorScheduler] never raise.  [SleepScheduler] raises what the
    computation of its delay [int(float(sleep) / trials)] raises, before it
    looks at the offers: [ZeroDivisionError] when [trials] is zero (and
    [sleep] fits a float), and only then.  With a delay computed, the batch
    returns when there is no offer to consume below capacity, or the delay is
    a length within [sleep_limit]; and it raises the error of a negative
    [time.sleep] when there is such an offer and the delay is negative (not
    below the least timestamp).  Whenever it raises, nothing has been
    launched, logged or changed.  With [sleep] and [trials] below 2^53 in
    magnitude the delay is the integer quotient, truncated towards zero. *)
Theorem resourceOffers_raises c sleep uris container offers w :
  (resourceOffers (PGScheduler container) offers w).2 = inr tt
  /\ (resourceOffers (ExecutorScheduler c uris container) offers w).2 = inr tt
  /\ ((resourceOffers (SleepScheduler sleep uris container) offers w).2
      = inl ZeroDivisionError -> trials (self w) = 0)
  /\ (forall x, float_of_int sleep = inr x -> trials (self w) = 0 ->
        resourceOffers (SleepScheduler sleep uris container) offers w
        = (w, inl ZeroDivisionError))
  /\ (forall e, float_delay sleep (trials (self w)) = inl e ->
        resourceOffers (SleepScheduler sleep uris container) offers w
        = (w, inl e))
  /\ (forall delay, float_delay sleep (trials (self w)) = inr delay ->
        (offers = []
         \/ trials (self w) <= Z.of_nat (length (tasks (self w)))
         \/ 0 <= delay <= sleep_limit ->
         (resourceOffers (SleepScheduler sleep uris container) offers w).2
         = inr tt)
        /\ (offers <> [] ->
            Z.of_nat (length (tasks (self w))) < trials (self w) ->
            - timestamp_max <= delay < 0 ->
            resourceOffers (SleepScheduler sleep uris container) offers w
            = (w, inl SleepLengthError)))
  /\ (forall e,
        (resourceOffers (SleepScheduler sleep uris container) offers w).2
        = inl e ->
        (resourceOffers (SleepScheduler sleep uris container) offers w).1 = w)
  /\ (Z.abs sleep < 2 ^ 53 -> Z.abs (trials (self w)) < 2 ^ 53 ->
      float_delay sleep (trials (self w))
      = if trials (self w) =? 0 then inl ZeroDivisionError
        else inr (Z.quot sleep (trials (self w)))).
Proof.
  split; [apply pg_batch_returns|].
  split; [apply executor_batch_returns|].
  pose proof (sleep_batch_cases sleep uris container offers w) as Hcases.
  split; [|split; [|split; [|split; [|split]]]]; cycle 5.
  { intros Hs Ht. destruct (trials (self w) =? 0) eqn:H0.
    - apply Z.eqb_eq in H0. rewrite H0.
      destruct (float_of_int_small sleep Hs) as [x Hx].
      by apply (float_delay_by_zero sleep x).
    - apply Z.eqb_neq in H0. by apply float_delay_exact. }
  - apply sleep_batch_zero_division.
  - intros x Hx H0. rewrite H0 in Hcases.
    by rewrite (float_delay_by_zero _ _ Hx) in Hcases.
  - intros e He. by rewrite He in Hcases.
  - intros delay Hd. rewrite Hd in Hcases. split.
    + intros Hok. case_decide as Hc; [|done].
      destruct Hc as (Hne & Hlt & Hbad). destruct Hok as [->|[Hge|Hin]];
        done || lia.
    + intros Hne Hlt Hneg. rewrite sleep_limit_eq in Hcases.
      case_decide as Hc; [|destruct Hc; repeat split; done || lia].
      rewrite Hcases, time_sleep_eq, sleep_limit_eq.
      destruct Hneg as [Hlo Hhi]. unfold timestamp_max in *.
      rewrite (proj2 (Z.leb_gt _ _) Hhi). simpl.
      rewrite (proj2 (Z.ltb_ge _ _) Hlo), (proj2 (Z.ltb_lt _ _) Hhi).
      by rewrite (proj2 (Z.ltb_ge 9223372036 delay)) by lia.
  - intros e He.
    destruct (float_delay sleep (trials (self w))) as [e'|delay];
      [by rewrite Hcases|].
    case_decide; [|by rewrite Hcases in He].
    rewrite Hcases, time_sleep_eq in *.
    by destruct ((0 <=? delay) && (delay <=? sleep_limit)).
Qed.

(** X3 at a sleep strategy of negative [sleep], and at one of no trial. *)
Lemma resourceOffers_raises_witness :
  resourceOffers (SleepScheduler (-10) [wiki] None) [offer1]
    (start "0badcafe" 3)
  = (start "0badcafe" 3, inl SleepLengthError)
  /\ resourceOffers (SleepScheduler 10 [wiki] None) [offer1]
       (start "0badcafe" 0)
     = (start "0badcafe" 0, inl ZeroDivisionError).
Proof.
  split.
  - destruct (resourceOffers_raises "" (-10) [wiki] None [offer1]
                (start "0badcafe" 3)) as (_ & _ & _ & _ & _ & H & _ & _).
    apply (H (-3)); [reflexivity|done|by vm_compute|by vm_compute].
  - destruct (resourceOffers_raises "" 10 [wiki] None [offer1]
                (start "0badcafe" 0)) as (_ & _ & _ & H & _).
    by apply (H (SpecFloat.S754_finite false 5629499534213120 (-49))).
Defined.
End OfferResults.

(** ** How one update moves the counts *)

Section Counts.
Implicit Types (init : gmap string TaskState) (us : list TaskStatus.t)
  (id : string) (w : World) (v : Strategy) (s : Scheduler)
  (update : TaskStatus.t) (c : TaskState).

Lemma length_filter_ne (l : list string) id :
  NoDup l ->
  length l
  = (length (filter (fun x => x <> id) l)
     + (if decide (id ∈ l) then 1 else 0))%nat.
Proof.
  induction 1 as [|x l Hx Hl IH]; [done|].
  rewrite filter_cons. simpl.
  destruct (decide (x <> id)) as [Hne|Heq%dec_stable].
  - simpl. rewrite IH.
    destruct (decide (id ∈ l)), (decide (id ∈ x :: l)) as [Hin|Hnin];
      try lia.
    + destruct Hnin. by right.
    + apply elem_of_cons in Hin as [->|]; done.
  - subst x. rewrite decide_True by left.
    rewrite IH, decide_False by done. lia.
Qed.

Lemma terminal_ids_step init us update :
  (length (terminal_ids init (us ++ [update]))
   + (if decide (in_set terminal (last_known init us (update_id update)))
      then 1 else 0))%nat
  = (length (terminal_ids init us)
     + (if decide (TaskStatus.state update ∈ terminal) then 1 else 0))%nat.
Proof.
  set (id0 := update_id update).
  rewrite (length_filter_ne (terminal_ids init (us ++ [update])) id0)
    by apply terminal_ids_NoDup.
  rewrite (length_filter_ne (terminal_ids init us) id0)
    by apply terminal_ids_NoDup.
  assert (Hrest :
    filter (fun x => x <> id0) (terminal_ids init (us ++ [update]))
    ≡ₚ filter (fun x => x <> id0) (terminal_ids init us)).
  { apply NoDup_Permutation;
      [apply NoDup_filter, terminal_ids_NoDup..|].
    intros id. rewrite !list_elem_of_filter, !elem_of_terminal_ids.
    rewrite last_known_snoc. fold id0.
    destruct (decide (id0 = id)) as [<-|]; [|done]. split; by intros []. }
  rewrite (Permutation_length Hrest).
  assert (Hnew : id0 ∈ terminal_ids init (us ++ [update])
                 <-> TaskStatus.state update ∈ terminal).
  { rewrite elem_of_terminal_ids, last_known_snoc. fold id0.
    rewrite decide_True by done. split.
    - by intros (c & [= <-] & ?).
    - intros ?. by eexists. }
  assert (Hold : id0 ∈ terminal_ids init us
                 <-> in_set terminal (last_known init us id0)).
  { apply elem_of_terminal_ids. }
  repeat case_decide; tauto || lia.
Qed.

(** X4: what a status update does to the number [all_tasks_done] compares
    with [trials]: the task's old status leaves the count if it was
    terminal, its new status enters it if it is terminal.  So the count goes
    up by one, stays, or goes down by one when a task reported terminal is
    reported non-terminal again: completion is not kept once reached. *)
Theorem statusUpdate_terminal_count v update w :
  all_tasks_done (self w)
  = (Z.of_nat (terminal_count (self w)) >=? trials (self w))
  /\ (terminal_count (self (statusUpdate v update w).1)
      + (if decide (in_set terminal (statuses (self w) !! update_id update))
         then 1 else 0))%nat
     = (terminal_count (self w)
        + (if decide (TaskStatus.state update ∈ terminal) then 1 else 0))%nat.
Proof.
  split; [done|].
  rewrite statusUpdate_self. unfold terminal_count.
  change (statuses (recorded update (self w)))
    with (record_all ([] ++ [update]) (statuses (self w))).
  change (values (statuses (self w)))
    with (values (record_all [] (statuses (self w)))).
  rewrite !count_terminal.
  apply (terminal_ids_step (statuses (self w)) [] update).
Qed.

(** *** The summary *)

Lemma incr_lookup (counts : gmap TaskState nat) code c :
  incr counts code !! c
  = if decide (code = c) then Some (S (default 0%nat (counts !! c)))
    else counts !! c.
Proof.
  unfold incr. rewrite lookup_insert. by destruct (decide (code = c)) as [->|].
Qed.

Lemma fold_incr_lookup (l : list (string * TaskState))
    (counts : gmap TaskState nat) c :
  fold_left (fun counts '(task, code) => incr counts code) l counts !! c
  = if decide (length (filter (fun kv => kv.2 = c) l) = 0%nat)
    then counts !! c
    else Some (default 0%nat (counts !! c)
               + length (filter (fun kv => kv.2 = c) l))%nat.
Proof.
  revert counts. induction l as [|[task code] l IH]; intros counts; [done|].
  simpl. rewrite IH, incr_lookup, filter_cons. simpl.
  destruct (decide (code = c)) as [->|Hne]; simpl.
  - destruct (decide (length (filter (fun kv => kv.2 = c) l) = 0%nat))
      as [->|]; f_equal; lia.
  - done.
Qed.

Lemma total_incr (counts : gmap TaskState nat) code :
  sum_list ((map_to_list (incr counts code)).*2)
  = S (sum_list ((map_to_list counts).*2)).
Proof.
  unfold incr. destruct (counts !! code) as [n|] eqn:Hc; simpl.
  - rewrite <- (insert_delete_id counts code n) at 2 by done.
    rewrite <- insert_delete_eq.
    rewrite !map_to_list_insert by apply lookup_delete_eq. done.
  - by rewrite map_to_list_insert.
Qed.

Lemma total_fold_incr (l : list (string * TaskState))
    (counts : gmap TaskState nat) :
  sum_list ((map_to_list
               (fold_left (fun counts '(task, code) => incr counts code)
                  l counts)).*2)
  = (sum_list ((map_to_list counts).*2) + length l)%nat.
Proof.
  revert counts. induction l as [|[task code] l IH]; intros counts; simpl.
  - lia.
  - rewrite IH, total_incr. lia.
Qed.

Global Instance TaskState_Name_inj : Inj (=) (=) TaskState_Name.
Proof. intros [] [] H; done || discriminate H. Qed.

(** X5: the summary lists a state exactly when some task id has it as its
    recorded status, once, under its protobuf name and with the number of
    those ids; the counts add up to the number of ids that have a status. *)
Theorem task_status_summary_counts s :
  (forall name n,
     (name, n) ∈ task_status_summary s
     <-> exists c,
           name = TaskState_Name c
           /\ n = length (ids_in_state s c) /\ (0 < n)%nat)
  /\ (forall id c, id ∈ ids_in_state s c <-> statuses s !! id = Some c)
  /\ (forall c, NoDup (ids_in_state s c))
  /\ NoDup (task_status_summary s).*1
  /\ sum_list (task_status_summary s).*2 = size (statuses s).
Proof.
  unfold task_status_summary, ids_in_state, items.
  set (counts := fold_left (fun counts '(task, code) => incr counts code)
                   (map_to_list (statuses s)) ∅).
  assert (Hcounts : forall c n,
             counts !! c = Some n
             <-> n = length (filter (fun kv : string * TaskState => kv.2 = c)
                              (map_to_list (statuses s)))
                 /\ (0 < n)%nat).
  { intros c n. unfold counts. rewrite fold_incr_lookup, lookup_empty. simpl.
    case_decide as Hz.
    - split; [done|]. intros [-> ?]. lia.
    - split; [intros [= <-]; split; lia|]. intros [-> _]. done. }
  split; [|split; [|split; [|split]]].
  - intros name n. rewrite list_elem_of_fmap. split.
    + intros ([c k] & [= -> ->] & Hin%elem_of_map_to_list).
      exists c. apply Hcounts in Hin as [-> ?].
      by rewrite length_fmap.
    + intros (c & -> & -> & Hpos). rewrite length_fmap in *.
      eexists (c, _). split; [done|]. by apply elem_of_map_to_list, Hcounts.
  - intros id c. rewrite list_elem_of_fmap. split.
    + intros ([k c'] & -> & [Hc Hin]%list_elem_of_filter). simpl in *.
      subst c'. by apply elem_of_map_to_list.
    + intros Hin. exists (id, c). split; [done|].
      apply list_elem_of_filter. split; [done|]. by apply elem_of_map_to_list.
  - intros c. apply NoDup_fmap_fst.
    + intros k c1 c2 [_ H1]%list_elem_of_filter [_ H2]%list_elem_of_filter.
      apply elem_of_map_to_list in H1, H2. congruence.
    + apply NoDup_filter, NoDup_map_to_list.
  - rewrite <- list_fmap_compose.
    rewrite (list_fmap_ext _ (TaskState_Name ∘ fst) (map_to_list counts))
      by (by intros ? []).
    rewrite list_fmap_compose. apply NoDup_fmap_2; [apply _|].
    apply NoDup_fst_map_to_list.
  - rewrite <- list_fmap_compose.
    rewrite (list_fmap_ext _ snd (map_to_list counts)) by (by intros ? []).
    unfold counts. rewrite total_fold_incr, map_to_list_empty. simpl.
    by rewrite length_map_to_list.
Qed.
End Counts.

(** ** Status updates over a run *)

Section UpdateRuns.
Implicit Types (us : list TaskStatus.t) (w : World) (v : Strategy)
  (update : TaskStatus.t) (tr : list Effect) (es : list Event)
  (s : Scheduler) (id : string).

Lemma kill_calls_reaction v update :
  kill_calls (reaction v update)
  = match v with
    | PGScheduler _ =>
        if decide (TaskStatus.state update = TASK_RUNNING)
        then [TaskStatus.task_id update] else []
    | _ => []
    end.
Proof. destruct v; simpl; try done. by case_decide. Qed.

(** X6: the kill requests.  Over any sequence of status updates,
    [PGScheduler] asks the driver to kill exactly the tasks reported
    [TASK_RUNNING] under an id that has a logger, once per such update and
    in their order; the other two strategies never ask for a kill. *)
Theorem killTask_on_running v us w :
  kill_calls (out (deliver v (Update <$> us) w))
  = (kill_calls (out w)
       ++ match v with
          | PGScheduler _ =>
              TaskStatus.task_id
                <$> filter (fun u =>
                              TaskStatus.state u = TASK_RUNNING
                              /\ is_Some (loggers (self w) !! update_id u)) us
          | _ => []
          end)%list.
Proof.
  revert w. induction us as [|u us IH]; intros w.
  { simpl. destruct v; by rewrite app_nil_r. }
  rewrite fmap_cons. simpl. rewrite IH. clear IH.
  assert (Hlog : loggers (self (statusUpdate v u w).1) = loggers (self w)).
  { by rewrite statusUpdate_self. }
  rewrite Hlog. clear Hlog.
  rewrite statusUpdate_eq.
  destruct (loggers (self w) !! update_id u) as [logger|] eqn:Hu;
    cbn [fst out self].
  - rewrite !kill_calls_app, kill_calls_reaction.
    change (kill_calls [Log logger INFO (Text (present_status u))])
      with (@nil TaskID.t).
    rewrite app_nil_l.
    assert (Hend : kill_calls
                     (if all_tasks_done (recorded u (self w))
                      then [summary_line (recorded u (self w)); stop] else [])
                   = []) by (by destruct (all_tasks_done _)).
    rewrite Hend, app_nil_r. clear Hend.
    destruct v as [| |container]; rewrite ?app_nil_r; try done.
    rewrite filter_cons.
    destruct (decide (TaskStatus.state u = TASK_RUNNING)) as [Hr|Hr].
    + rewrite decide_True by (split; [done|by rewrite Hu]).
      by rewrite <- app_assoc.
    + rewrite decide_False by (by intros [? _]). by rewrite app_nil_r.
  - destruct v as [| |container]; try done.
    rewrite filter_cons, decide_False; [done|].
    rewrite Hu. by intros [_ [? ?]].
Qed.

Lemma deliver_start_consistent v es tok n :
  consistent (self (deliver v es (start tok n))).
Proof.
  apply (evolves_consistent _ _ (deliver_evolves _ _ _)), start_consistent.
Qed.

Lemma evolves_logger_names s s' :
  evolves s s' ->
  (forall id logger, loggers s !! id = Some logger -> logger = id) ->
  forall id logger, loggers s' !! id = Some logger -> logger = id.
Proof.
  induction 1 as [|s s' task _ IH _ _|s s' update _ IH]; auto.
  intros Hs id logger. unfold launched, registered_id. simpl.
  rewrite lookup_insert. case_decide as Hid; [|by apply IH].
  intros [= <-]. by subst id.
Qed.

(** X7: in a run of a new scheduler, a status update returns normally
    exactly when its task id is that of a launched task, and then its first
    trace record is the status line, logged at [INFO] on the logger that
    bears the task id; for any other id it raises [KeyError] with nothing
    logged. *)
Theorem statusUpdate_returns_iff_launched v tok n es update :
  ((statusUpdate v update (deliver v es (start tok n))).2 = inr tt
   <-> update_id update ∈ launched_ids (self (deliver v es (start tok n))))
  /\ ((statusUpdate v update (deliver v es (start tok n))).2 = inr tt ->
      exists rest,
        out (statusUpdate v update (deliver v es (start tok n))).1
        = (out (deliver v es (start tok n))
             ++ Log (update_id update) INFO (Text (present_status update))
                :: rest)%list)
  /\ ((statusUpdate v update (deliver v es (start tok n))).2 <> inr tt ->
      statusUpdate v update (deliver v es (start tok n))
      = ({| self := recorded update (self (deliver v es (start tok n)));
            out := out (deliver v es (start tok n)) |},
         inl (KeyError (update_id update)))).
Proof.
  set (w := deliver v es (start tok n)).
  pose proof (deliver_start_consistent v es tok n (update_id update)) as Hc.
  fold w in Hc.
  assert (Hname : forall logger,
             loggers (self w) !! update_id update = Some logger ->
             logger = update_id update).
  { apply (evolves_logger_names _ _ (deliver_evolves v es (start tok n))).
    intros id logger. simpl. by rewrite lookup_empty. }
  rewrite statusUpdate_eq.
  destruct (loggers (self w) !! update_id update) as [logger|] eqn:Hlog; simpl.
  - rewrite (Hname logger eq_refl). split; [|split; [|done]].
    + split; [intros _; apply Hc; by eexists|done].
    + intros _. by eexists.
  - split; [|split; [done|done]].
    split; [done|]. intros [? [=]]%Hc.
Qed.
End UpdateRuns.

(** ** No stop before the trials are launched *)

Section StopSafety.
Implicit Types (w : World) (v : Strategy) (update : TaskStatus.t)
  (es : list Event) (s : Scheduler) (e : Event).

(** With statuses for launched tasks only, no more tasks can be terminal
    than were launched. *)
Lemma terminal_count_bound s :
  statuses_known s -> (terminal_count s <= length (tasks s))%nat.
Proof.
  intros Hk. unfold terminal_count, values.
  etrans; [apply length_filter|].
  rewrite length_fmap, <- (length_fmap fst).
  replace (length (tasks s)) with (length (launched_ids s))
    by apply length_fmap.
  apply submseteq_length, NoDup_submseteq; [apply NoDup_fst_map_to_list|].
  intros id ([k c] & -> & Hin%elem_of_map_to_list)%list_elem_of_fmap.
  apply Hk. by eexists.
Qed.

Lemma resourceOffers_never_stops_aux v offers w :
  stop_calls (out (resourceOffers v offers w).1) = stop_calls (out w)
  /\ evolves (self w) (self (resourceOffers v offers w).1).
Proof.
  split; [|apply resourceOffers_evolves].
  destruct (resourceOffers_shape_on v offers w) as (body & Hbody & [-> | [e ->]]);
    [|done].
  by destruct (for_offers_trace body offers w Hbody)
    as (new & _ & _ & _ & _ & _ & Hstop & _).
Qed.

Lemma callback_stop_safe v e w :
  consistent (self w) -> statuses_known (self w) ->
  stop_calls (out w) = 0%nat
    \/ trials (self w) <= Z.of_nat (length (tasks (self w))) ->
  stop_calls (out (callback v e w).1) = 0%nat
  \/ trials (self (callback v e w).1)
     <= Z.of_nat (length (tasks (self (callback v e w).1))).
Proof.
  intros Hc Hk Hsafe. destruct e as [offers|update].
  - simpl.
    destruct (resourceOffers_never_stops_aux v offers w) as (-> & Hev).
    destruct (evolves_fixed _ _ Hev) as [_ ->].
    destruct (evolves_tasks _ _ Hev) as (k & -> & _).
    destruct Hsafe; [by left|right; lia].
  - pose proof (callback_statuses_known v (Update update) w Hc Hk) as Hk'.
    simpl in *. rewrite statusUpdate_eq in *.
    destruct (loggers (self w) !! update_id update) as [logger|];
      cbn [fst snd out self] in *; [|done].
    specialize (Hk' eq_refl).
    destruct (all_tasks_done (recorded update (self w))) eqn:Hdone.
    + right. apply Z.geb_le in Hdone.
      pose proof (terminal_count_bound _ Hk') as Hb.
      unfold terminal_count in Hb. lia.
    + rewrite !stop_calls_app, (proj1 (reaction_quiet v update)).
      destruct Hsafe as [->|]; [by left|by right].
Qed.

(** X8: in a run of a new scheduler that ends with its first exception, the
    driver is never stopped while fewer tasks than [trials] have been
    launched: whenever the trace holds a [stop], at least [trials] tasks
    exist.  (A run that receives too few offers never stops.) *)
Theorem stop_needs_all_trials_launched v es tok n :
  stop_calls (out (run v es (start tok n)).1) = 0%nat
  \/ n <= Z.of_nat (length (tasks (self (run v es (start tok n)).1))).
Proof.
  assert (Hgen : forall w,
             consistent (self w) -> statuses_known (self w) ->
             stop_calls (out w) = 0%nat
               \/ trials (self w) <= Z.of_nat (length (tasks (self w))) ->
             stop_calls (out (run v es w).1) = 0%nat
             \/ trials (self w)
                <= Z.of_nat (length (tasks (self (run v es w).1)))).
  { induction es as [|e es IH]; intros w Hc Hk Hsafe; [done|].
    simpl. unfold bind.
    pose proof (callback_stop_safe v e w Hc Hk Hsafe) as Hsafe'.
    pose proof (callback_consistent v e w Hc) as Hc'.
    pose proof (callback_statuses_known v e w Hc Hk) as Hk'.
    pose proof (proj2 (evolves_fixed _ _ (callback_evolves v e w))) as Htr.
    destruct (callback v e w) as [w' [exn|[]]]; simpl in *.
    - by rewrite <- Htr.
    - rewrite <- Htr. apply IH; auto. }
  apply (Hgen (start tok n)).
  - apply start_consistent.
  - intros id. simpl. rewrite lookup_empty. by intros [? [=]].
  - by left.
Qed.
End StopSafety.

(** ** Ids, descriptors and what is logged of them *)

Section Descriptors.
Implicit Types (w : World) (tid : string) (sid : SlaveID.t) (a : args)
  (image : option string) (s : Scheduler).

Lemma registered_id_idem s : registered_id (registered_id s) = registered_id s.
Proof.
  unfold registered_id, set_loggers. simpl. by rewrite insert_insert_eq.
Qed.

(** X9: [next_task_id] is no counter of its own: called again before a task
    is appended it returns the same id and leaves the object as the first
    call left it; the id changes only with [len(self.tasks)]. *)
Theorem next_task_id_repeat w task :
  (next_task_id;; next_task_id) w = next_task_id w
  /\ ((modify_self (set_tasks (fun tasks => (tasks ++ [task])%list));;
       next_task_id) (next_task_id w).1).2
     = inr (task_id_at (token (self w)) (S (length (tasks (self w)))))
  /\ task_id_at (token (self w)) (S (length (tasks (self w))))
     <> task_id_at (token (self w)) (length (tasks (self w))).
Proof.
  split; [|split].
  - unfold bind. rewrite !next_task_id_eq. simpl.
    by rewrite registered_id_idem.
  - unfold bind, modify_self. rewrite !next_task_id_eq. simpl.
    rewrite length_app. simpl. by rewrite Nat.add_1_r.
  - intros H%task_id_at_inj. lia.
Qed.

Lemma MergeFrom_empty_command_star a :
  CommandInfo.MergeFrom CommandInfo.empty (command_star a) = command_star a.
Proof. destruct a; apply MergeFrom_empty_command. Qed.

Lemma factory_descriptors_aux tid sid a image :
  task_with_command tid sid a
  = {| TaskInfo.name := tid;
       TaskInfo.task_id := {| TaskID.value := tid |};
       TaskInfo.slave_id := {| SlaveID.value := SlaveID.value sid |};
       TaskInfo.resources :=
         TaskInfo.resources (task_base tid sid default_cpu default_ram);
       TaskInfo.executor := None;
       TaskInfo.command := Some (command_star a) |}
  /\ task_with_daemon tid sid image
     = {| TaskInfo.name := tid;
          TaskInfo.task_id := {| TaskID.value := tid |};
          TaskInfo.slave_id := {| SlaveID.value := SlaveID.value sid |};
          TaskInfo.resources :=
         TaskInfo.resources (task_base tid sid default_cpu default_ram);
          TaskInfo.executor := None;
          TaskInfo.command := Some (command "" [] image) |}
  /\ task_with_executor tid sid a
     = {| TaskInfo.name := tid;
          TaskInfo.task_id := {| TaskID.value := tid |};
          TaskInfo.slave_id := {| SlaveID.value := SlaveID.value sid |};
          TaskInfo.resources :=
         TaskInfo.resources (task_base tid sid default_cpu default_ram);
          TaskInfo.executor :=
            Some {| ExecutorInfo.executor_id := Some tid;
                    ExecutorInfo.name := Some tid;
                    ExecutorInfo.source := Some "medea-test";
                    ExecutorInfo.command := Some (command_star a) |};
          TaskInfo.command := None |}.
Proof.
  unfold task_with_command, task_with_daemon, task_with_executor, set_command,
    set_executor, task_base, ExecutorInfo.MergeFrom. simpl.
  rewrite !MergeFrom_empty_command_star, MergeFrom_empty_command. done.
Qed.

(** X10: what the factories build.  Every descriptor is named by its task
    id, sits on the slave of the given id and asks for the two scalar
    resources [cpus] = 0.5 and [mem] = 256.  The command and daemon factories
    set the command and no executor; the executor factory sets no command
    but an executor whose id and name are the task id, whose source is
    ["medea-test"] and whose command is what [command] makes of the
    arguments. *)
Theorem factory_descriptors tid sid a image :
  let base_resources :=
    [ {| Resource.name := "cpus"; Resource.type := SCALAR;
         Resource.scalar := 1 # 2 |};
      {| Resource.name := "mem"; Resource.type := SCALAR;
         Resource.scalar := 256 # 1 |} ] in
  task_with_command tid sid a
  = {| TaskInfo.name := tid;
       TaskInfo.task_id := {| TaskID.value := tid |};
       TaskInfo.slave_id := {| SlaveID.value := SlaveID.value sid |};
       TaskInfo.resources := base_resources;
       TaskInfo.executor := None;
       TaskInfo.command := Some (command_star a) |}
  /\ task_with_daemon tid sid image
     = {| TaskInfo.name := tid;
          TaskInfo.task_id := {| TaskID.value := tid |};
          TaskInfo.slave_id := {| SlaveID.value := SlaveID.value sid |};
          TaskInfo.resources := base_resources;
          TaskInfo.executor := None;
          TaskInfo.command := Some (command "" [] image) |}
  /\ task_with_executor tid sid a
     = {| TaskInfo.name := tid;
          TaskInfo.task_id := {| TaskID.value := tid |};
          TaskInfo.slave_id := {| SlaveID.value := SlaveID.value sid |};
          TaskInfo.resources := base_resources;
          TaskInfo.executor :=
            Some {| ExecutorInfo.executor_id := Some tid;
                    ExecutorInfo.name := Some tid;
                    ExecutorInfo.source := Some "medea-test";
                    ExecutorInfo.command := Some (command_star a) |};
          TaskInfo.command := None |}.
Proof.
  cbv zeta. apply factory_descriptors_aux.
Qed.

(** X11: what [present_task] shows of a launched task: the token
    ["executor"] with the executor for a task of the executor factory, the
    token ["command"] with the command for a task of the other two. *)
Theorem present_task_of_factories tid sid a image :
  present_task (task_with_command tid sid a)
  = TaskText "command" (inr (command_star a))
  /\ present_task (task_with_daemon tid sid image)
     = TaskText "command" (inr (command "" [] image))
  /\ present_task (task_with_executor tid sid a)
     = TaskText "executor"
         (inl {| ExecutorInfo.executor_id := Some tid;
                 ExecutorInfo.name := Some tid;
                 ExecutorInfo.source := Some "medea-test";
                 ExecutorInfo.command := Some (command_star a) |}).
Proof.
  destruct (factory_descriptors_aux tid sid a image) as (-> & -> & ->). done.
Qed.
End Descriptors.

(** ** The command line *)

Section CommandLine.
Implicit Types (p : Namespace) (d : gmap string ArgValue) (k : string)
  (v : ArgValue).

(** Of the seven options only the five [--test.*] ones have a key with one
    piece after ["test."]; the dictionary is built from those. *)
Lemma constructor_args_eq p :
  constructor_args (pairs (vars p))
  = set_if_truthy "uris" (opt_value VList (ns_uris p))
      (set_if_truthy "command" (opt_value VStr (ns_command p))
         (set_if_truthy "trials" (opt_value VInt (ns_trials p))
            (set_if_truthy "sleep" (opt_value VInt (ns_sleep p))
               (set_if_truthy "container" (opt_value VStr (ns_container p))
                  ∅)))).
Proof. reflexivity. Qed.

Lemma set_if_truthy_lookup k v d k' :
  set_if_truthy k v d !! k'
  = if decide (k = k') then (if truth v then Some v else d !! k')
    else d !! k'.
Proof.
  unfold set_if_truthy. destruct (truth v); [|by case_decide].
  rewrite lookup_insert. by case_decide.
Qed.

Lemma given_value {A} (f : A -> ArgValue) (o : option A) :
  (if truth (opt_value f o) then Some (opt_value f o) else None)
  = f <$> given f o.
Proof. destruct o as [a|]; simpl; [|done]. by destruct (truth (f a)). Qed.

Lemma given_truth {A} (f : A -> ArgValue) (o : option A) v :
  f <$> given f o = Some v -> truth v = true.
Proof.
  destruct o as [a|]; simpl; [|done].
  destruct (truth (f a)) eqn:H; simpl; [|done]. by intros [= <-].
Qed.

(** X12: the keyword arguments [cli] passes to the scheduler's constructor
    are the [--test.*] options that were given a truthy value, each under
    its name without the ["test."] prefix; [master] and [test] are never
    passed, and an option given as [0], as the empty string or not at all is
    left out, so that the constructor's default applies. *)
Theorem constructor_args_given p :
  let d := constructor_args (pairs (vars p)) in
  d !! "container" = VStr <$> given VStr (ns_container p)
  /\ d !! "sleep" = VInt <$> given VInt (ns_sleep p)
  /\ d !! "trials" = VInt <$> given VInt (ns_trials p)
  /\ d !! "command" = VStr <$> given VStr (ns_command p)
  /\ d !! "uris" = VList <$> given VList (ns_uris p)
  /\ (forall k,
        k ∉ ["container"; "sleep"; "trials"; "command"; "uris"] ->
        d !! k = None)
  /\ (forall k v, d !! k = Some v -> truth v = true)
  /\ d !! "sleep" <> Some (VInt 0) /\ d !! "trials" <> Some (VInt 0).
Proof.
  cbv zeta. rewrite constructor_args_eq.
  assert (Hc : forall k',
    set_if_truthy "uris" (opt_value VList (ns_uris p))
      (set_if_truthy "command" (opt_value VStr (ns_command p))
         (set_if_truthy "trials" (opt_value VInt (ns_trials p))
            (set_if_truthy "sleep" (opt_value VInt (ns_sleep p))
               (set_if_truthy "container" (opt_value VStr (ns_container p))
                  ∅)))) !! k'
    = if decide ("uris" = k') then VList <$> given VList (ns_uris p)
      else if decide ("command" = k') then VStr <$> given VStr (ns_command p)
      else if decide ("trials" = k') then VInt <$> given VInt (ns_trials p)
      else if decide ("sleep" = k') then VInt <$> given VInt (ns_sleep p)
      else if decide ("container" = k')
           then VStr <$> given VStr (ns_container p)
      else None).
  { intros k'. rewrite !set_if_truthy_lookup, lookup_empty.
    rewrite <- !given_value.
    repeat case_decide; simplify_eq; try done;
      repeat match goal with |- context [truth ?v] => destruct (truth v) end;
      done. }
  assert (Htruth : forall k v,
    (if decide ("uris" = k) then VList <$> given VList (ns_uris p)
     else if decide ("command" = k) then VStr <$> given VStr (ns_command p)
     else if decide ("trials" = k) then VInt <$> given VInt (ns_trials p)
     else if decide ("sleep" = k) then VInt <$> given VInt (ns_sleep p)
     else if decide ("container" = k)
          then VStr <$> given VStr (ns_container p)
     else None) = Some v -> truth v = true).
  { intros k v.
    repeat case_decide; simplify_eq; try done; apply given_truth. }
  repeat split.
  1-5: by rewrite Hc.
  - intros k Hk. rewrite Hc.
    repeat case_decide; try done; subst k; destruct Hk;
      repeat (by left) || right.
  - intros k v. rewrite Hc. apply Htruth.
  - rewrite Hc. intros H. by apply Htruth in H.
  - rewrite Hc. intros H. by apply Htruth in H.
Qed.
End CommandLine.

Section SchedulerChoice.
Implicit Types (p : Namespace).

Lemma given_int_nonzero (o : option Z) (dflt : Z) :
  dflt <> 0 -> default dflt (given VInt o) <> 0.
Proof.
  intros Hd. destruct o as [n|]; simpl; [|done].
  destruct (n =? 0) eqn:Hn; simpl; [done|]. by apply Z.eqb_neq.
Qed.

(** X13: the scheduler [cli] constructs.  A [--test.command] with a truthy
    value is a keyword neither selectable scheduler has, and raises
    [TypeError]; so do [--test.sleep] and [--test.uris] with the [pg] test.
    Otherwise the scheduler is built from the options given, with the
    constructor's default wherever an option is missing or falsy: a sleep or
    a trial count of [0] cannot be asked for.  In particular [trials] is
    never zero, so the scheduler's [resourceOffers] never divides by
    zero. *)
Theorem cli_scheduler_outcome p :
  cli_scheduler p
  = match given VStr (ns_command p), ns_test p with
    | Some _, _ => TypeError
    | None, test_sleep =>
        Built_as
          (SleepScheduler (default 10 (given VInt (ns_sleep p)))
             (default [wiki] (given VList (ns_uris p)))
             (given VStr (ns_container p)))
          (default 5 (given VInt (ns_trials p)))
    | None, test_pg =>
        match given VInt (ns_sleep p), given VList (ns_uris p) with
        | None, None =>
            Built_as
              (PGScheduler
                 (Some (default "docker:///zaiste/postgresql"
                          (given VStr (ns_container p)))))
              (default 10 (given VInt (ns_trials p)))
        | _, _ => TypeError
        end
    end
  /\ (forall v n tok offers,
        cli_scheduler p = Built_as v n ->
        n <> 0
        /\ (resourceOffers v offers (start tok n)).2
           <> inl ZeroDivisionError).
Proof.
  assert (Heq :
    cli_scheduler p
    = match given VStr (ns_command p), ns_test p with
      | Some _, _ => TypeError
      | None, test_sleep =>
          Built_as
            (SleepScheduler (default 10 (given VInt (ns_sleep p)))
               (default [wiki] (given VList (ns_uris p)))
               (given VStr (ns_container p)))
            (default 5 (given VInt (ns_trials p)))
      | None, test_pg =>
          match given VInt (ns_sleep p), given VList (ns_uris p) with
          | None, None =>
              Built_as
                (PGScheduler
                   (Some (default "docker:///zaiste/postgresql"
                            (given VStr (ns_container p)))))
                (default 10 (given VInt (ns_trials p)))
          | _, _ => TypeError
          end
      end).
  { destruct p as [m t c sl tr cmd u].
    unfold cli_scheduler. rewrite constructor_args_eq.
    unfold given, set_if_truthy, opt_value. cbn [ns_test ns_container ns_sleep
      ns_trials ns_command ns_uris].
    destruct c as [c|], sl as [sl|], tr as [tr|], cmd as [cmd|], u as [u|];
      cbv beta;
      repeat match goal with
        | |- context [truth (VStr ?x)] => destruct (truth (VStr x)) eqn:?
        | |- context [truth (VInt ?x)] => destruct (truth (VInt x)) eqn:?
        | |- context [truth (VList ?x)] => destruct (truth (VList x)) eqn:?
        end;
      destruct t; vm_compute; reflexivity. }
  split; [exact Heq|].
  intros v n tok offers Hb. rewrite Heq in Hb.
  assert (Hn : n <> 0).
  { destruct (given VStr (ns_command p)); [done|].
    destruct (ns_test p).
    - injection Hb as _ <-. by apply given_int_nonzero.
    - destruct (given VInt (ns_sleep p)); [done|].
      destruct (given VList (ns_uris p)); [done|].
      injection Hb as _ <-. by apply given_int_nonzero. }
  split; [done|].
  destruct v as [c uris container|sleep uris container|container].
  - by rewrite executor_batch_returns.
  - intros H0%sleep_batch_zero_division. done.
  - by rewrite pg_batch_returns.
Qed.
End SchedulerChoice.

(** ** Tasks and launch calls over a run *)

Section LaunchLedger.
Implicit Types (w : World) (v : Strategy) (es : list Event)
  (offers : list Offer.t) (new : list TaskInfo.t).

Lemma statusUpdate_launch_calls v update w :
  launch_calls (out (statusUpdate v update w).1) = launch_calls (out w)
  /\ tasks (self (statusUpdate v update w).1) = tasks (self w).
Proof.
  rewrite statusUpdate_eq.
  destruct (loggers (self w) !! update_id update) as [logger|];
    cbn [fst out self]; [|done].
  rewrite !launch_calls_app.
  assert (Hr : launch_calls (reaction v update) = []).
  { destruct v; simpl; try done. by case_decide. }
  rewrite Hr. destruct (all_tasks_done _); simpl; by rewrite app_nil_r.
Qed.

Lemma zip_launches offers new :
  Forall2 (fun offer task =>
             SlaveID.value (TaskInfo.slave_id task)
             = SlaveID.value (Offer.slave_id offer))
    (take (length new) offers) new ->
  (length new <= length offers)%nat
  /\ (zip_with (fun offer task => (Offer.id offer, [task])) offers new).*2
     = (fun task => [task]) <$> new.
Proof.
  revert offers. induction new as [|task new IH]; intros offers H.
  { split; [simpl; lia|]. by destruct offers. }
  destruct offers as [|offer offers]; [by inversion H|].
  simpl in H. apply Forall2_cons in H as [_ H].
  destruct (IH offers H) as [Hlen Hzip].
  split; [simpl; lia|]. simpl. f_equal. exact Hzip.
Qed.

Lemma callback_ledger v e w :
  (launch_calls (out w)).*2 = (fun task => [task]) <$> tasks (self w) ->
  (launch_calls (out (callback v e w).1)).*2
  = (fun task => [task]) <$> tasks (self (callback v e w).1)
  /\ (length (tasks (self (callback v e w).1))
      <= length (tasks (self w)) + length (offers_of [e]))%nat.
Proof.
  intros Hinv. destruct e as [offers|update]; simpl.
  - unfold offers_of. simpl. rewrite app_nil_r.
    destruct (resourceOffers_shape_on v offers w)
      as (body & Hbody & [-> | [e ->]]).
    + destruct (for_offers_trace body offers w Hbody)
        as (new & -> & _ & _ & -> & Hsl & _).
      destruct (zip_launches offers new Hsl) as [Hlen Hzip].
      rewrite !fmap_app, length_app, Hinv. split; [|lia].
      f_equal. exact Hzip.
    + simpl. split; [done|lia].
  - destruct (statusUpdate_launch_calls v update w) as [-> ->].
    split; [done|lia].
Qed.

Lemma offers_of_cons e es :
  length (offers_of (e :: es))
  = (length (offers_of [e]) + length (offers_of es))%nat.
Proof.
  unfold offers_of. destruct e as [offers|update]; simpl.
  - by rewrite app_nil_r, length_app.
  - done.
Qed.

(** X14: the ledger of a run.  At every point of a run of a new scheduler
    the [launchTasks] calls made so far are, in order, one call per task of
    [self.tasks] with that task alone; a status update adds neither a task
    nor a call; and there are never more tasks than offers were
    delivered. *)
Theorem launch_calls_match_tasks v es tok n update :
  (launch_calls (out (deliver v es (start tok n)))).*2
  = (fun task => [task]) <$> tasks (self (deliver v es (start tok n)))
  /\ (length (tasks (self (deliver v es (start tok n))))
      <= length (offers_of es))%nat
  /\ launch_calls (out (statusUpdate v update (deliver v es (start tok n))).1)
     = launch_calls (out (deliver v es (start tok n)))
  /\ tasks (self (statusUpdate v update (deliver v es (start tok n))).1)
     = tasks (self (deliver v es (start tok n))).
Proof.
  assert (Hgen : forall w,
    (launch_calls (out w)).*2 = (fun task => [task]) <$> tasks (self w) ->
    (launch_calls (out (deliver v es w))).*2
    = (fun task => [task]) <$> tasks (self (deliver v es w))
    /\ (length (tasks (self (deliver v es w)))
        <= length (tasks (self w)) + length (offers_of es))%nat).
  { induction es as [|e es IH]; intros w Hinv.
    - simpl. split; [done|lia].
    - destruct (callback_ledger v e w Hinv) as [Hinv' Hlen].
      destruct (IH _ Hinv') as [Hfin Hlen'].
      simpl. split; [exact Hfin|].
      rewrite offers_of_cons. lia. }
  destruct (Hgen (start tok n) eq_refl) as [Hl Hn].
  split; [exact Hl|]. split; [simpl in Hn; lia|].
  apply statusUpdate_launch_calls.
Qed.
End LaunchLedger.

(** ** Pacing *)

Section Pacing.
Implicit Types (w : World) (v : Strategy) (es : list Event)
  (offers : list Offer.t) (tr : list Effect).

Lemma slept_app tr1 tr2 : slept (tr1 ++ tr2) = slept tr1 + slept tr2.
Proof.
  induction tr1 as [|e tr1 IH]; simpl; [done|].
  destruct e; rewrite ?IH; lia.
Qed.

(** A loop whose body sleeps [secs] at each launch sleeps [secs] for each
    task it appends, and only then. *)
Lemma for_offers_slept secs (body : Offer.t -> M unit) offers w :
  (forall offer w,
     (exists e, body offer w = (w, inl e))
     \/ (exists task effs,
           slept effs = secs
           /\ body offer w
              = ({| self := launched task (self w); out := out w ++ effs |},
                 inr tt))) ->
  slept (out (for_offers body offers w).1)
  - secs * Z.of_nat (length (tasks (self (for_offers body offers w).1)))
  = slept (out w) - secs * Z.of_nat (length (tasks (self w))).
Proof.
  intros Hbody. revert w.
  induction offers as [|offer rest IH]; intros w; [done|].
  rewrite for_offers_cons.
  destruct (Z.of_nat (length (tasks (self w))) >=? trials (self w)); [done|].
  destruct (Hbody offer w) as [[e ->]|(task & effs & Hs & ->)]; [done|].
  rewrite IH. cbn [out self]. unfold launched. cbn [tasks set_tasks].
  rewrite slept_app, length_app, Hs. simpl. lia.
Qed.

Lemma paced_body_slept secs (mk : Offer.t -> string -> TaskInfo.t) offer w :
  (exists e,
     (time_sleep secs;;
      let* tid := next_task_id in launch offer tid (mk offer tid)) w
     = (w, inl e))
  \/ (exists task effs,
        slept effs = secs
        /\ (time_sleep secs;;
            let* tid := next_task_id in launch offer tid (mk offer tid)) w
           = ({| self := launched task (self w); out := out w ++ effs |},
              inr tt)).
Proof.
  destruct ((0 <=? secs) && (secs <=? sleep_limit)) eqn:Hs; cycle 1.
  - left. eexists. unfold bind. by rewrite time_sleep_eq, Hs.
  - right. eexists _, [Sleep secs; _; _]. split; cycle 1.
    { unfold bind at 1. rewrite time_sleep_eq, Hs. cbv beta iota.
      rewrite (next_then_launch (mk offer)). simpl.
      rewrite <- app_assoc. reflexivity. }
    simpl. lia.
Qed.

Lemma statusUpdate_slept v update w :
  slept (out (statusUpdate v update w).1)
  = slept (out w)
    + 2 * Z.of_nat (length (kill_calls (out (statusUpdate v update w).1)))
    - 2 * Z.of_nat (length (kill_calls (out w))).
Proof.
  rewrite statusUpdate_eq.
  destruct (loggers (self w) !! update_id update) as [logger|];
    cbn [fst out self]; [|lia].
  rewrite !slept_app, !kill_calls_app, !length_app.
  assert (Hend : forall s : Scheduler,
             slept (if all_tasks_done s then [summary_line s; stop] else [])
             = 0
             /\ kill_calls
                  (if all_tasks_done s then [summary_line s; stop] else [])
                = []).
  { intros s. by destruct (all_tasks_done s). }
  destruct (Hend (recorded update (self w))) as [-> ->].
  destruct v; simpl; try lia. case_decide; simpl; lia.
Qed.

(** X15: pacing.  A [SleepScheduler] run sleeps its delay
    [int(float(sleep) / trials)] before each launch and at no other time: a
    run of a new scheduler has slept the delay once for each task launched.
    With a [sleep] of at least zero and a positive number of trials, both
    below 2^53, the delay is the integer quotient of the two, and the run
    spends no more than [sleep] seconds sleeping in all. *)
Theorem SleepScheduler_pacing sleep uris container es tok n delay :
  float_delay sleep n = inr delay ->
  slept (out (deliver (SleepScheduler sleep uris container) es (start tok n)))
  = delay
    * Z.of_nat (length (tasks (self (deliver (SleepScheduler sleep uris
                                               container) es (start tok n)))))
  /\ (0 <= sleep < 2 ^ 53 -> 0 < n < 2 ^ 53 ->
      delay = Z.quot sleep n
      /\ slept (out (deliver (SleepScheduler sleep uris container) es
                       (start tok n))) <= sleep).
Proof.
  intros Hd.
  set (v := SleepScheduler sleep uris container).
  assert (Hgen : forall w,
    trials (self w) = n ->
    slept (out (deliver v es w))
    - delay * Z.of_nat (length (tasks (self (deliver v es w))))
    = slept (out w) - delay * Z.of_nat (length (tasks (self w)))).
  { induction es as [|[offers|update] es IH]; intros w Hw; [done|..]; simpl.
    - rewrite IH.
      + rewrite SleepScheduler_resourceOffers_eq, Hw, Hd.
        apply for_offers_slept. intros offer w'.
        apply (paced_body_slept _
                 (fun offer tid =>
                    task_with_command tid (Offer.slave_id offer)
                      (Args3 ("date -u +%T ; sleep " ++ str sleep
                              ++ " ; date -u +%T") uris container))).
      + rewrite <- Hw.
        apply (evolves_fixed _ _ (resourceOffers_evolves v offers w)).
    - rewrite IH.
      + change (SleepScheduler_statusUpdate update w)
          with (statusUpdate v update w).
        rewrite statusUpdate_slept, statusUpdate_self.
        assert (Hk : kill_calls (out (statusUpdate v update w).1)
                     = kill_calls (out w)).
        { rewrite statusUpdate_eq.
          destruct (loggers (self w) !! update_id update); cbn [fst out];
            [|done].
          rewrite !kill_calls_app. simpl.
          destruct (all_tasks_done _); simpl; by rewrite app_nil_r. }
        rewrite Hk. simpl. lia.
      + change (SleepScheduler_statusUpdate update w)
          with (statusUpdate v update w).
        by rewrite statusUpdate_self. }
  specialize (Hgen (start tok n) eq_refl). simpl in Hgen.
  assert (Heq : slept (out (deliver v es (start tok n)))
                = delay
                  * Z.of_nat (length (tasks (self (deliver v es
                                                     (start tok n)))))).
  { lia. }
  split; [exact Heq|]. intros Hs Hn.
  assert (Hq : delay = Z.quot sleep n).
  { rewrite float_delay_exact in Hd by lia. by injection Hd. }
  split; [exact Hq|]. rewrite Heq, Hq.
  pose proof (evolves_capacity _ _ (deliver_evolves v es (start tok n)))
    as Hcap.
  rewrite (proj2 (evolves_fixed _ _ (deliver_evolves v es (start tok n))))
    in Hcap.
  simpl in Hcap. specialize (Hcap ltac:(lia)).
  pose proof (Z.quot_pos sleep n ltac:(lia) ltac:(lia)) as Hpos.
  assert (Hm : 0 <= n * Z.quot sleep n <= sleep)
    by (apply Z.mul_quot_le; lia).
  nia.
Qed.

(** X15 at the default sleep of ten seconds over three trials: the delay is
    three seconds, and two batches of two offers launch the three tasks. *)
Lemma SleepScheduler_pacing_witness :
  float_delay 10 3 = inr 3
  /\ slept (out (deliver (SleepScheduler 10 [wiki] None)
                   [Offers [offer1; offer2]; Offers [offer1; offer2]]
                   (start "0badcafe" 3)))
     = 3 * Z.of_nat (length (tasks (self (deliver
                                            (SleepScheduler 10 [wiki] None)
                                            [Offers [offer1; offer2];
                                             Offers [offer1; offer2]]
                                            (start "0badcafe" 3)))))
  /\ slept (out (deliver (SleepScheduler 10 [wiki] None)
                   [Offers [offer1; offer2]; Offers [offer1; offer2]]
                   (start "0badcafe" 3))) <= 10.
Proof.
  assert (Hd : float_delay 10 3 = inr 3) by reflexivity.
  split; [exact Hd|].
  destruct (SleepScheduler_pacing 10 [wiki] None
              [Offers [offer1; offer2]; Offers [offer1; offer2]] "0badcafe"
              3 3 Hd) as [Heq Hle].
  split; [exact Heq|]. apply Hle; lia.
Defined.

End Pacing.
